(** * python-compiler-template: the docTR command-line wrapper

    A shallow embedding of [src/path_resolver.py] and [src/main.py] and the
    properties of the path resolver, the export flattener and the CLI
    driver.

    Python values are modelled dynamically (a [pyval] carries its run-time
    type, and an operation applied to the wrong type raises), strings are
    sequences of Unicode code points, and an exception is a value of the
    error monad [result].

    The path resolver and the driver are given twice: on a file system
    without symbolic links whose calls return ([PathResolver], [Main]),
    where resolving a path is a matter of its text, and on a system
    where a name can be a symbolic link and [os.getcwd] and [os.stat]
    can fail ([Posix]). *)

From Stdlib Require Import List String Ascii ZArith NArith Bool Lia.
From Stdlib Require Import DecimalString SpecFloat.
Import ListNotations.

Set Implicit Arguments.

(* ===================================================================== *)
(** * Python strings *)
(* ===================================================================== *)

Module PyStr.

(** A Python [str] is a sequence of code points. *)
Definition str := list N.

(** A literal of the source, written in ASCII. *)
Definition lit (s : string) : str :=
  map N_of_ascii (list_ascii_of_string s).

Fixpoint str_eqb (a b : str) : bool :=
  match a, b with
  | [], [] => true
  | x :: a', y :: b' => N.eqb x y && str_eqb a' b'
  | _, _ => false
  end.

Definition str_eq_dec (a b : str) : {a = b} + {a <> b} :=
  list_eq_dec N.eq_dec a b.

(** [sep.join(items)] on strings. *)
Fixpoint join (sep : str) (items : list str) : str :=
  match items with
  | [] => []
  | [x] => x
  | x :: rest => x ++ sep ++ join sep rest
  end.

(** [s.split(sep)] for a one-character separator: the fields between the
    separators, empty ones included; never the empty list. *)
Fixpoint split (sep : N) (s : str) : list str :=
  match s with
  | [] => [[]]
  | c :: s' =>
      if N.eqb c sep then [] :: split sep s'
      else match split sep s' with
           | [] => [[c]]
           | field :: fields => (c :: field) :: fields
           end
  end.

(** The characters [str.strip()] removes (Py_UNICODE_ISSPACE). *)
Definition isspace (c : N) : bool :=
  ((9 <=? c) && (c <=? 13) || (28 <=? c) && (c <=? 32)
   || (c =? 133) || (c =? 160) || (c =? 5760)
   || (8192 <=? c) && (c <=? 8202)
   || (c =? 8232) || (c =? 8233) || (c =? 8239) || (c =? 8287)
   || (c =? 12288))%N.

Fixpoint lstrip (s : str) : str :=
  match s with
  | c :: s' => if isspace c then lstrip s' else s
  | [] => []
  end.

Definition rstrip (s : str) : str := rev (lstrip (rev s)).

(** [s.strip()] *)
Definition strip (s : str) : str := rstrip (lstrip s).

Definition space : str := [32%N].
Definition newline : str := [10%N].
Definition slash : N := 47%N.

(** Decimal rendering of a non-negative integer, as [str(i)] gives it. *)
Definition str_of_nat (n : nat) : str :=
  lit (NilZero.string_of_uint (Nat.to_uint n)).

End PyStr.
Import PyStr.

(* ===================================================================== *)
(** * Python values, exceptions and the error monad *)
(* ===================================================================== *)

Module Py.

(** The run-time values a docTR export, or its JSON image, is made of.
    A [dict] keeps its insertion order; its keys are strings. *)
#[warnings="-register-all"]
Inductive pyval : Type :=
| PNone
| PBool (b : bool)
| PInt (z : Z)
| PFloat (f : spec_float)
| PStr (s : str)
| PList (items : list pyval)
| PTuple (items : list pyval)
| PDict (entries : list (str * pyval)).

Inductive pytype := TNone | TBool | TInt | TFloat | TStr | TList | TTuple | TDict.

Definition type_of (v : pyval) : pytype :=
  match v with
  | PNone => TNone | PBool _ => TBool | PInt _ => TInt | PFloat _ => TFloat
  | PStr _ => TStr | PList _ => TList | PTuple _ => TTuple | PDict _ => TDict
  end.

Definition type_name (t : pytype) : str :=
  match t with
  | TNone => lit "NoneType" | TBool => lit "bool" | TInt => lit "int"
  | TFloat => lit "float" | TStr => lit "str" | TList => lit "list"
  | TTuple => lit "tuple" | TDict => lit "dict"
  end.

(** The exceptions the modelled code can meet. [External] is an exception
    raised by a collaborator (docTR, the operating system); it carries
    what [str(e)] gives. *)
Inductive exn : Type :=
| AttributeError (t : pytype) (attr : str)
| NotIterable (t : pytype)
| JoinItem (index : nat) (t : pytype)
| External (message : str).

(** [str(e)] *)
Definition exn_message (e : exn) : str :=
  match e with
  | AttributeError t attr =>
      lit "'" ++ type_name t ++ lit "' object has no attribute '" ++ attr ++ lit "'"
  | NotIterable t => lit "'" ++ type_name t ++ lit "' object is not iterable"
  | JoinItem i t =>
      lit "sequence item " ++ str_of_nat i ++ lit ": expected str instance, "
        ++ type_name t ++ lit " found"
  | External m => m
  end.

Inductive result (A : Type) : Type :=
| Ok (a : A)
| Raise (e : exn).
Arguments Ok {A} a.
Arguments Raise {A} e.

Definition bind {A B} (r : result A) (k : A -> result B) : result B :=
  match r with
  | Ok a => k a
  | Raise e => Raise e
  end.

(** The text a call returned, if it returned. *)
Definition returned {A} (r : result A) : option A :=
  match r with
  | Ok a => Some a
  | Raise _ => None
  end.

(** A [for] loop whose body updates the loop state or raises. *)
Fixpoint for_each {A S} (xs : list A) (body : A -> S -> result S) (s : S)
  : result S :=
  match xs with
  | [] => Ok s
  | x :: rest => bind (body x s) (for_each rest body)
  end.

Fixpoint dict_lookup (entries : list (str * pyval)) (key : str) : option pyval :=
  match entries with
  | [] => None
  | (k, v) :: rest => if str_eqb k key then Some v else dict_lookup rest key
  end.

(** [d[key] = v] *)
Fixpoint dict_set (entries : list (str * pyval)) (key : str) (v : pyval)
  : list (str * pyval) :=
  match entries with
  | [] => [(key, v)]
  | (k, x) :: rest =>
      if str_eqb k key then (k, v) :: rest else (k, x) :: dict_set rest key v
  end.

(** [d.get(key, default)]: only a dict has the method. *)
Definition py_get (d : pyval) (key : str) (default : pyval) : result pyval :=
  match d with
  | PDict entries =>
      Ok (match dict_lookup entries key with
          | Some v => v
          | None => default
          end)
  | _ => Raise (AttributeError (type_of d) (lit "get"))
  end.

(** What [iter(v)] yields: the items of a list or tuple, the characters of
    a string, the keys of a dict. *)
Definition py_iter (v : pyval) : result (list pyval) :=
  match v with
  | PList items | PTuple items => Ok items
  | PStr s => Ok (map (fun c => PStr [c]) s)
  | PDict entries => Ok (map (fun kv => PStr (fst kv)) entries)
  | _ => Raise (NotIterable (type_of v))
  end.

(** [enumerate(v)] paired with [len(v)]. *)
Definition enumerate {A} (xs : list A) : list (nat * A) :=
  combine (seq 0 (List.length xs)) xs.

(** Truth value of an object, as [if value:] tests it. *)
Definition truthy (v : pyval) : bool :=
  match v with
  | PNone => false
  | PBool b => b
  | PInt z => negb (Z.eqb z 0)
  | PFloat (S754_zero _) => false
  | PFloat _ => true
  | PStr s => negb (str_eqb s [])
  | PList items | PTuple items =>
      match items with [] => false | _ => true end
  | PDict entries =>
      match entries with [] => false | _ => true end
  end.

(** [sep.join(items)] on objects: the first item that is not a [str]
    raises a TypeError naming its position and type. *)
Fixpoint as_strs (index : nat) (items : list pyval) : result (list str) :=
  match items with
  | [] => Ok []
  | PStr s :: rest => bind (as_strs (S index) rest) (fun ss => Ok (s :: ss))
  | v :: _ => Raise (JoinItem index (type_of v))
  end.

Definition str_join (sep : str) (items : list pyval) : result str :=
  bind (as_strs 0 items) (fun ss => Ok (join sep ss)).

End Py.
Import Py.

Declare Scope py_scope.
Delimit Scope py_scope with py.
Notation "x <- c ;; k" := (bind c (fun x => k))
  (at level 61, c at next level, right associativity) : py_scope.
Open Scope py_scope.

(* ===================================================================== *)
(** * path_resolver.py *)
(* ===================================================================== *)

Module PathResolver.

(** ** pathlib, POSIX flavour

    A path object is its root (empty, one separator or two) and its
    parts. *)
Record PurePath : Type := { root : str; parts : list str }.

(** [posixpath.splitroot]: exactly two leading separators are a root of
    their own, one or at least three collapse to one. *)
Definition splitroot (p : str) : str * str :=
  match p with
  | c1 :: rest1 =>
      if negb (N.eqb c1 slash) then ([], p)
      else
        match rest1 with
        | c2 :: rest2 =>
            if negb (N.eqb c2 slash) then ([slash], rest1)
            else
              match rest2 with
              | c3 :: _ =>
                  if N.eqb c3 slash then ([slash], rest1)
                  else ([slash; slash], rest2)
              | [] => ([slash; slash], rest2)
              end
        | [] => ([slash], rest1)
        end
  | [] => ([], p)
  end.

(** The parser drops empty parts and ["."] parts, nothing else. *)
Definition keep_part (x : str) : bool :=
  negb (str_eqb x []) && negb (str_eqb x (lit ".")).

(** [Path(s)] *)
Definition Path (s : str) : PurePath :=
  let (r, rel) := splitroot s in
  {| root := r; parts := filter keep_part (split slash rel) |}.

Definition is_absolute (p : PurePath) : bool := negb (str_eqb (root p) []).

(** [a / b] *)
Definition joinpath (a b : PurePath) : PurePath :=
  if is_absolute b then b
  else {| root := root a; parts := parts a ++ parts b |}.

(** [str(p)] *)
Definition path_str (p : PurePath) : str :=
  match root p, parts p with
  | [], [] => lit "."
  | r, ps => r ++ join [slash] ps
  end.

(** [p.parent] *)
Definition parent (p : PurePath) : PurePath :=
  {| root := root p; parts := removelast (parts p) |}.

(** ** The file system the process runs on

    [os.getcwd()] is an absolute path string. No prefix of a path is a
    symbolic link in the file systems modelled here, so that resolving a
    path is a matter of its text, and every call returns; and a path is
    a string a process can receive on its command line, without the NUL
    character, on which the calls of the operating system raise. The
    module [Posix] below has the same functions on a system with
    symbolic links and calls that fail, and [resolve_input_path_quiet]
    and [main_quiet] relate the two. *)
Record filesystem : Type := {
  getcwd : str;
  getcwd_absolute : is_absolute (Path getcwd) = true;
  path_exists : PurePath -> bool;
  is_file : PurePath -> bool
}.

(** [Path.cwd()] *)
Definition Path_cwd (fs : filesystem) : PurePath := Path (getcwd fs).

(** The loop of [os.path.realpath] over the names of a path, on its way
    down from the root, where no name is a symbolic link
    ([Posix.joinrealpath] is the loop with links); [path] holds the
    names kept so far, innermost first. *)
Fixpoint realpath_walk (path : list str) (names : list str) : list str :=
  match names with
  | [] => rev path
  | name :: rest =>
      if str_eqb name [] || str_eqb name (lit ".") then realpath_walk path rest
      else if str_eqb name (lit "..") then realpath_walk (tl path) rest
      else realpath_walk (name :: path) rest
  end.

(** [p.resolve()], without links ([Posix.resolve] is the one with). *)
Definition resolve (fs : filesystem) (p : PurePath) : PurePath :=
  let q := if is_absolute p then p else joinpath (Path_cwd fs) p in
  {| root := [slash]; parts := realpath_walk [] (parts q) |}.

(** ** resolve_input_path *)
Definition resolve_input_path (fs : filesystem) (user_path : str) : PurePath :=
  let p := Path user_path in
  if negb (is_absolute p) then resolve fs (joinpath (Path_cwd fs) p)
  else p.

(** ** The specification's [normalize]

    Written from the specification's words, on the text of a path:
    [.] and [..] segments resolved and redundant separators collapsed.
    In an absolute path [..] at the root stays at the root; in a relative
    one leading [..] segments are kept. *)
Definition normalize_absolute (stack : list str) (segment : str) : list str :=
  if str_eqb segment [] || str_eqb segment (lit ".") then stack
  else if str_eqb segment (lit "..") then removelast stack
  else stack ++ [segment].

Definition normalize_relative (stack : list str) (segment : str) : list str :=
  if str_eqb segment [] || str_eqb segment (lit ".") then stack
  else if str_eqb segment (lit "..") then
    match rev stack with
    | [] => [segment]
    | top :: _ => if str_eqb top (lit "..") then stack ++ [segment]
                  else removelast stack
    end
  else stack ++ [segment].

Definition normalize (s : str) : PurePath :=
  match s with
  | c :: _ =>
      if N.eqb c slash
      then {| root := [slash];
              parts := fold_left normalize_absolute (split slash s) [] |}
      else {| root := [];
              parts := fold_left normalize_relative (split slash s) [] |}
  | [] => {| root := []; parts := [] |}
  end.

(** A segment of a normalized path: not empty, not [.], not [..]. *)
Definition proper_name (x : str) : bool :=
  keep_part x && negb (str_eqb x (lit "..")).

(** The text of [d / p]. *)
Definition join_text (d p : str) : str := d ++ [slash] ++ p.

End PathResolver.
Import PathResolver.

(* ===================================================================== *)
(** * main.py *)
(* ===================================================================== *)

Module Main.

(** ** extract_text_from_doctr_export

    Each loop of the source is a [for_each] over what the iterated object
    yields; the loop state is the list the body appends to. *)

(** Body of [for w in line.get("words", [])]. *)
Definition word_body (w : pyval) (words : list pyval) : result (list pyval) :=
  value <- py_get w (lit "value") (PStr []) ;;
  Ok (if truthy value then words ++ [value] else words).

(** Body of [for line in block.get("lines", [])]. *)
Definition line_body (line : pyval) (output_lines : list str)
  : result (list str) :=
  ws <- py_get line (lit "words") (PList []) ;;
  items <- py_iter ws ;;
  words <- for_each items word_body [] ;;
  match words with
  | [] => Ok output_lines
  | _ :: _ =>
      text <- str_join space words ;;
      Ok (output_lines ++ [text])
  end.

(** Body of [for block in page.get("blocks", [])]. *)
Definition block_body (block : pyval) (output_lines : list str)
  : result (list str) :=
  ls <- py_get block (lit "lines") (PList []) ;;
  items <- py_iter ls ;;
  for_each items line_body output_lines.

(** Body of [for page_index, page in enumerate(pages)]; [len_pages] is
    [len(pages)]. *)
Definition page_body (len_pages : nat) (entry : nat * pyval)
           (output_lines : list str) : result (list str) :=
  let (page_index, page) := entry in
  bs <- py_get page (lit "blocks") (PList []) ;;
  items <- py_iter bs ;;
  output_lines <- for_each items block_body output_lines ;;
  if negb (Z.eqb (Z.of_nat page_index) (Z.of_nat len_pages - 1))
  then Ok (output_lines ++ [[]])
  else Ok output_lines.

(** The value of [output_lines] when the page loop is over. *)
Definition collect_output_lines (exported : pyval) : result (list str) :=
  pages <- py_get exported (lit "pages") (PList []) ;;
  items <- py_iter pages ;;
  for_each (enumerate items) (page_body (List.length items)) [].

Definition extract_text_from_doctr_export (exported : pyval) : result str :=
  output_lines <- collect_output_lines exported ;;
  Ok (strip (join newline output_lines)).

(** ** The command line *)

(** What the user typed: the positional argument, and each option if it
    was given. *)
Record command_line : Type := {
  arg_image_path : str;
  opt_json_out : option str;
  opt_det_arch : option str;
  opt_reco_arch : option str;
  flag_no_text : bool
}.

(** The namespace [parser.parse_args()] returns. *)
Record Namespace : Type := {
  image_path : str;
  json_out : str;
  det_arch : str;
  reco_arch : str;
  no_text : bool
}.

Definition or_default (given : option str) (default : str) : str :=
  match given with
  | Some s => s
  | None => default
  end.

Definition parse_args (argv : command_line) : Namespace :=
  {| image_path := arg_image_path argv;
     json_out := or_default (opt_json_out argv) [];
     det_arch := or_default (opt_det_arch argv) (lit "db_resnet50");
     reco_arch := or_default (opt_reco_arch argv) (lit "crnn_vgg16_bn");
     no_text := flag_no_text argv |}.

(** ** The collaborators *)

(** docTR: its objects are opaque, each call returns or raises. *)
Record docTR : Type := {
  document : Type;
  predictor : Type;
  prediction : Type;
  from_images : str -> result document;
  ocr_predictor : str -> str -> bool -> result predictor;
  call_model : predictor -> document -> result prediction;
  export : prediction -> result pyval
}.

(** The world a run happens in. [write_json p v] is
    [open(p, "w", encoding="utf-8")] followed by
    [json.dump(v, f, ensure_ascii=False, indent=2)]. *)
Record world : Type := {
  fs : filesystem;
  doctr : docTR;
  mkdir_parents : PurePath -> result unit;
  write_json : PurePath -> pyval -> result unit;
  print_stdout : str -> result unit
}.

(** What a run does to the world, in order. A call is recorded when it is
    made, whether it returns or raises. *)
Inductive event : Type :=
| LoadDocument (path : str)
| BuildPredictor (det reco : str) (pretrained : bool)
| RunModel
| ExportResult
| Mkdir (p : PurePath)
| WriteJson (p : PurePath) (v : pyval)
| Stdout (text : str)
| Stderr (text : str).

Definition is_ocr_event (e : event) : bool :=
  match e with
  | LoadDocument _ | BuildPredictor _ _ _ | RunModel | ExportResult => true
  | _ => false
  end.

Definition is_write_event (e : event) : bool :=
  match e with
  | Mkdir _ | WriteJson _ _ => true
  | _ => false
  end.

(** Code that can raise and leaves a trace. *)
Definition io (A : Type) : Type := list event -> result A * list event.

Definition io_ret {A} (a : A) : io A := fun trace => (Ok a, trace).

Definition io_bind {A B} (c : io A) (k : A -> io B) : io B :=
  fun trace =>
    match c trace with
    | (Ok a, trace') => k a trace'
    | (Raise e, trace') => (Raise e, trace')
    end.

(** A call into a collaborator. *)
Definition call {A} (ev : event) (r : result A) : io A :=
  fun trace => (r, trace ++ [ev]).

(** Code of this program: no event of its own. *)
Definition pure {A} (r : result A) : io A := fun trace => (r, trace).

Declare Scope io_scope.
Delimit Scope io_scope with io.
Notation "x <- c ;; k" := (io_bind c (fun x => k))
  (at level 61, c at next level, right associativity) : io_scope.

(** Lines 138-156: load, build, infer, export. *)
Definition run_ocr (w : world) (args : Namespace) (img_path : PurePath)
  : io pyval :=
  (doc <- call (LoadDocument (path_str img_path))
               (from_images (doctr w) (path_str img_path)) ;;
   model <- call (BuildPredictor (det_arch args) (reco_arch args) true)
                 (ocr_predictor (doctr w) (det_arch args) (reco_arch args) true) ;;
   result <- call RunModel (call_model (doctr w) model doc) ;;
   call ExportResult (export (doctr w) result))%io.

(** Lines 159-168: [if args.json_out:]. *)
Definition write_json_out (w : world) (args : Namespace) (exported : pyval)
  : io unit :=
  if truthy (PStr (json_out args)) then
    let out_path := resolve_input_path (fs w) (json_out args) in
    (_ <- call (Mkdir (parent out_path)) (mkdir_parents w (parent out_path)) ;;
     call (WriteJson out_path exported) (write_json w out_path exported))%io
  else io_ret tt.

(** Lines 171-173: [if not args.no_text:]. *)
Definition print_text (w : world) (args : Namespace) (exported : pyval)
  : io unit :=
  if negb (no_text args) then
    (text <- pure (extract_text_from_doctr_export exported) ;;
     call (Stdout text) (print_stdout w text))%io
  else io_ret tt.

(** The body of the [try]. *)
Definition try_body (w : world) (args : Namespace) (img_path : PurePath)
  : io unit :=
  (exported <- run_ocr w args img_path ;;
   _ <- write_json_out w args exported ;;
   print_text w args exported)%io.

(** [main] returns the exit code; the trace is what it did on the way. *)
Definition main (w : world) (argv : command_line) : Z * list event :=
  let args := parse_args argv in
  let img_path := resolve_input_path (fs w) (image_path args) in
  if negb (path_exists (fs w) img_path) then
    (2%Z, [Stderr (lit "ERROR: File not found: " ++ path_str img_path)])
  else if negb (is_file (fs w) img_path) then
    (2%Z, [Stderr (lit "ERROR: Not a file: " ++ path_str img_path)])
  else
    match try_body w args img_path [] with
    | (Ok _, trace) => (0%Z, trace)
    | (Raise e, trace) =>
        (1%Z, trace ++ [Stderr (lit "ERROR: OCR failed: " ++ exn_message e)])
    end.

(** What a piece of code returns and what it does, started on an empty
    trace. *)
Definition outcome {A} (c : io A) : result A := fst (c []).
Definition events {A} (c : io A) : list event := snd (c []).

(** Code that only adds to the trace it is given. *)
Definition appends {A} (c : io A) : Prop :=
  forall trace, c trace = (outcome c, trace ++ events c).

(** The two checks of lines 124-131 both pass. *)
Definition valid_input (w : world) (img_path : PurePath) : bool :=
  path_exists (fs w) img_path && is_file (fs w) img_path.

(** The same command line with another [--json-out]. *)
Definition with_json_out (argv : command_line) (value : option str)
  : command_line :=
  {| arg_image_path := arg_image_path argv;
     opt_json_out := value;
     opt_det_arch := opt_det_arch argv;
     opt_reco_arch := opt_reco_arch argv;
     flag_no_text := flag_no_text argv |}.

End Main.
Import Main.

(* ===================================================================== *)
(** * The specification's side *)
(* ===================================================================== *)

Module Reference.

(** ** The OCR export

    [{"pages": [Page]}], [Page = {"blocks": [Block]}],
    [Block = {"lines": [Line]}], [Line = {"words": [Word]}],
    [Word = {"value": string, ...}]: at each level a dict whose key, if it
    is there, holds a list of the next level (a string, for a word). Any
    other key may be there with any value. *)
Definition holds_list (key : str) (item_ok : pyval -> bool) (v : pyval) : bool :=
  match v with
  | PDict entries =>
      match dict_lookup entries key with
      | None => true
      | Some (PList items) => forallb item_ok items
      | Some _ => false
      end
  | _ => false
  end.

Definition is_word (v : pyval) : bool :=
  match v with
  | PDict entries =>
      match dict_lookup entries (lit "value") with
      | None => true
      | Some (PStr _) => true
      | Some _ => false
      end
  | _ => false
  end.

Definition is_line : pyval -> bool := holds_list (lit "words") is_word.
Definition is_block : pyval -> bool := holds_list (lit "lines") is_line.
Definition is_page : pyval -> bool := holds_list (lit "blocks") is_block.
Definition is_export : pyval -> bool := holds_list (lit "pages") is_page.

(** ** Accessors that give the empty sequence for an absent key *)
Definition children (key : str) (v : pyval) : list pyval :=
  match v with
  | PDict entries =>
      match dict_lookup entries key with
      | Some (PList items) => items
      | _ => []
      end
  | _ => []
  end.

Definition word_value (w : pyval) : str :=
  match w with
  | PDict entries =>
      match dict_lookup entries (lit "value") with
      | Some (PStr s) => s
      | _ => []
      end
  | _ => []
  end.

Definition nonempty (s : str) : bool :=
  match s with
  | [] => false
  | _ :: _ => true
  end.

(** The values collected for a line, and the entry the line contributes:
    none when no value was collected. *)
Definition line_values (line : pyval) : list str :=
  filter nonempty (map word_value (children (lit "words") line)).

Definition line_entry (line : pyval) : list str :=
  match line_values line with
  | [] => []
  | values => [join space values]
  end.

Definition block_entries (block : pyval) : list str :=
  flat_map line_entry (children (lit "lines") block).

Definition page_entries (page : pyval) : list str :=
  flat_map block_entries (children (lit "blocks") page).

(** The text lines alone, page after page, joined and stripped. *)
Definition flatten_lines_only (exported : pyval) : str :=
  strip (join newline (flat_map page_entries (children (lit "pages") exported))).

(** The same with the entry that separates a page from the next one. *)
Definition separator (len_pages page_index : nat) : list str :=
  if Nat.eqb (S page_index) len_pages then [] else [[]].

Definition output_entries (exported : pyval) : list str :=
  let pages := children (lit "pages") exported in
  flat_map (fun entry : nat * pyval =>
              page_entries (snd entry) ++ separator (List.length pages) (fst entry))
           (enumerate pages).

Definition flatten (exported : pyval) : str :=
  strip (join newline (output_entries exported)).

(** ** Absent keys made explicit

    The same export with every absent key written out with its empty
    default. *)
Definition with_default (key : str) (default : pyval)
           (on_item : pyval -> pyval) (v : pyval) : pyval :=
  match v with
  | PDict entries =>
      match dict_lookup entries key with
      | None => PDict (dict_set entries key default)
      | Some (PList items) =>
          PDict (dict_set entries key (PList (map on_item items)))
      | Some _ => v
      end
  | _ => v
  end.

Definition word_defaults : pyval -> pyval :=
  with_default (lit "value") (PStr []) (fun v => v).
Definition line_defaults : pyval -> pyval :=
  with_default (lit "words") (PList []) word_defaults.
Definition block_defaults : pyval -> pyval :=
  with_default (lit "lines") (PList []) line_defaults.
Definition page_defaults : pyval -> pyval :=
  with_default (lit "blocks") (PList []) block_defaults.
Definition export_defaults : pyval -> pyval :=
  with_default (lit "pages") (PList []) page_defaults.

(** ** Words without text left out

    The same export without the words whose value is absent or empty. *)
Definition has_text (w : pyval) : bool := nonempty (word_value w).

Definition with_items (key : str) (on_items : list pyval -> list pyval)
           (v : pyval) : pyval :=
  match v with
  | PDict entries =>
      match dict_lookup entries key with
      | Some (PList items) => PDict (dict_set entries key (PList (on_items items)))
      | _ => v
      end
  | _ => v
  end.

Definition line_with_text : pyval -> pyval :=
  with_items (lit "words") (filter has_text).
Definition block_with_text : pyval -> pyval :=
  with_items (lit "lines") (map line_with_text).
Definition page_with_text : pyval -> pyval :=
  with_items (lit "blocks") (map block_with_text).
Definition export_with_text : pyval -> pyval :=
  with_items (lit "pages") (map page_with_text).

End Reference.

(* ===================================================================== *)
(** * The json module *)
(* ===================================================================== *)

Module Json.

(** What [json.load] gives back for what [json.dump] wrote, by the
    conversion tables of the standard library: a tuple comes back as a
    list, everything else as it was. *)
Fixpoint decoded (v : pyval) : pyval :=
  match v with
  | PList items => PList (map decoded items)
  | PTuple items => PList (map decoded items)
  | PDict entries =>
      PDict ((fix entries_decoded (es : list (str * pyval)) :=
                match es with
                | [] => []
                | (k, x) :: rest => (k, decoded x) :: entries_decoded rest
                end) entries)
  | _ => v
  end.

Definition type_decoded (t : pytype) : pytype :=
  match t with
  | TTuple => TList
  | _ => t
  end.

(** The exception the same code raises on the decoded value. *)
Definition exn_decoded (e : exn) : exn :=
  match e with
  | AttributeError t attr => AttributeError (type_decoded t) attr
  | NotIterable t => NotIterable (type_decoded t)
  | JoinItem i t => JoinItem i (type_decoded t)
  | External m => External m
  end.

(** A value that decoding leaves as it is. *)
Definition same {A} (a : A) : A := a.

(** The outcome of the same code on the decoded value, when what it
    returns is decoded by [on_value]. *)
Definition result_decoded {A B} (on_value : A -> B) (r : result A) : result B :=
  match r with
  | Ok a => Ok (on_value a)
  | Raise e => Raise (exn_decoded e)
  end.

End Json.

(* ===================================================================== *)
(** * Shapes of values, of paths and of traces *)
(* ===================================================================== *)

Module Shape.

(** ** The values the flattener returns on

    A dict whose [key], when it is there, holds a value [field_ok]
    accepts. *)
Definition field_accepted (key : str) (field_ok : pyval -> bool) (v : pyval)
  : bool :=
  match v with
  | PDict entries =>
      match dict_lookup entries key with
      | Some x => field_ok x
      | None => true
      end
  | _ => false
  end.

(** A list or a tuple of accepted items; or an empty string or an empty
    dict, which a [for] loop runs over without a step. *)
Definition sequence_accepted (item_ok : pyval -> bool) (v : pyval) : bool :=
  match v with
  | PList items | PTuple items => forallb item_ok items
  | PStr [] => true
  | PDict [] => true
  | _ => false
  end.

(** A word value the line can take: one that tests false, or a string. *)
Definition value_accepted (value : pyval) : bool :=
  negb (truthy value)
  || match value with
     | PStr _ => true
     | _ => false
     end.

Definition word_accepted : pyval -> bool :=
  field_accepted (lit "value") value_accepted.
Definition line_accepted : pyval -> bool :=
  field_accepted (lit "words") (sequence_accepted word_accepted).
Definition block_accepted : pyval -> bool :=
  field_accepted (lit "lines") (sequence_accepted line_accepted).
Definition page_accepted : pyval -> bool :=
  field_accepted (lit "blocks") (sequence_accepted block_accepted).
Definition export_accepted : pyval -> bool :=
  field_accepted (lit "pages") (sequence_accepted page_accepted).

(** What [w.get("value", "")] gives on a dict. *)
Definition value_of (w : pyval) : pyval :=
  match w with
  | PDict entries =>
      match dict_lookup entries (lit "value") with
      | Some x => x
      | None => PStr []
      end
  | _ => PNone
  end.

Definition is_dict (v : pyval) : bool :=
  match v with
  | PDict _ => true
  | _ => false
  end.

Definition is_str (v : pyval) : bool :=
  match v with
  | PStr _ => true
  | _ => false
  end.

(** A loop body that returns on the items [ok] accepts and raises on the
    others, whatever the state. *)
Definition settles {A S} (ok : A -> bool) (body : A -> S -> result S) : Prop :=
  forall x,
    if ok x then forall s, exists s', body x s = Ok s'
    else forall s, exists e, body x s = Raise e.

(** What a line does with the items of its [words]. *)
Definition line_loop (items : list pyval) (output_lines : list str)
  : result (list str) :=
  words <- for_each items word_body [] ;;
  match words with
  | [] => Ok output_lines
  | _ :: _ =>
      text <- str_join space words ;;
      Ok (output_lines ++ [text])
  end.

(** ** The keys the flattener reads

    The same dict with [key] alone, and in the list it holds each item
    reduced by [on_item]. *)
Definition keep_only (key : str) (on_item : pyval -> pyval) (v : pyval) : pyval :=
  match v with
  | PDict entries =>
      match dict_lookup entries key with
      | Some (PList items) => PDict [(key, PList (map on_item items))]
      | Some x => PDict [(key, x)]
      | None => PDict []
      end
  | _ => v
  end.

Definition word_only : pyval -> pyval := keep_only (lit "value") (fun v => v).
Definition line_only : pyval -> pyval := keep_only (lit "words") word_only.
Definition block_only : pyval -> pyval := keep_only (lit "lines") line_only.
Definition page_only : pyval -> pyval := keep_only (lit "blocks") block_only.
Definition export_only : pyval -> pyval := keep_only (lit "pages") page_only.

(** ** Text without outer whitespace *)
Definition starts_with_space (s : str) : bool :=
  match s with
  | c :: _ => isspace c
  | [] => false
  end.

Definition stripped (s : str) : bool :=
  negb (starts_with_space s) && negb (starts_with_space (rev s)).

(** A field without the separator in it. *)
Definition no_sep (sep : N) (x : str) : bool := negb (existsb (N.eqb sep) x).

(** A text that does not start with the separator. *)
Definition no_leading_sep (s : str) : bool :=
  match s with
  | c :: _ => negb (N.eqb c slash)
  | [] => true
  end.

(** ** Paths the parser makes

    A part is not empty, not [.] and holds no separator; the root is
    empty, one separator or two. *)
Definition part_parsed (x : str) : bool :=
  keep_part x && negb (existsb (N.eqb slash) x).

Definition root_parsed (r : str) : bool :=
  str_eqb r [] || str_eqb r [slash] || str_eqb r [slash; slash].

Definition path_parsed (p : PurePath) : bool :=
  root_parsed (root p) && forallb part_parsed (parts p).

(** ** Traces

    The stage of a run an event belongs to: the calls into docTR, the
    writing of the JSON file, the text on standard output, the report on
    standard error. *)
Definition stage (e : event) : nat :=
  match e with
  | LoadDocument _ | BuildPredictor _ _ _ | RunModel | ExportResult => 0
  | Mkdir _ | WriteJson _ _ => 1
  | Stdout _ => 2
  | Stderr _ => 3
  end.

(** The stages of a trace never go back. *)
Fixpoint in_stage_order (from : nat) (trace : list event) : bool :=
  match trace with
  | [] => true
  | e :: rest => Nat.leb from (stage e) && in_stage_order (stage e) rest
  end.

Definition is_stdout (e : event) : bool :=
  match e with
  | Stdout _ => true
  | _ => false
  end.

Definition is_stderr (e : event) : bool :=
  match e with
  | Stderr _ => true
  | _ => false
  end.

(** The four calls of a run whose OCR stage returns. *)
Definition ocr_calls (args : Namespace) (img_path : PurePath) : list event :=
  [LoadDocument (path_str img_path);
   BuildPredictor (det_arch args) (reco_arch args) true;
   RunModel; ExportResult].

(** The two events of a run that writes its JSON file. *)
Definition json_writes (w : world) (args : Namespace) (exported : pyval)
  : list event :=
  if truthy (PStr (json_out args)) then
    [Mkdir (parent (resolve_input_path (fs w) (json_out args)));
     WriteJson (resolve_input_path (fs w) (json_out args)) exported]
  else [].

End Shape.

(* ===================================================================== *)
(** * The process on a POSIX system *)
(* ===================================================================== *)

Module Posix.

(** ** What the operating system adds

    A [filesystem] has no symbolic link and its calls return. A [system]
    is one together with what the operating system adds to it: a call
    can fail, and a name can be a symbolic link. The functions of this
    module are those of [path_resolver.py] and [main] again, on a
    [system], with [Path.resolve], [Path.exists] and [Path.is_file] as
    the standard library (3.11) writes them. *)

(** How [os.stat] fails on a path when it is not for the lack of a file
    there. [Eloop] is ELOOP, too many levels of symbolic links. [Errno e]
    is an [OSError] whose errno pathlib does not take for the absence of
    a file (any but ENOENT, ENOTDIR, EBADF and ELOOP), such as
    ENAMETOOLONG or EACCES. *)
Inductive stat_failure : Type :=
| Eloop
| Errno (e : exn).

(** Whether a name on the way from [base] down [names] is a symbolic
    link. *)
Fixpoint link_below (readlink : list str -> option str) (base names : list str)
  : bool :=
  match names with
  | [] => false
  | name :: rest =>
      match readlink (base ++ [name]) with
      | Some _ => true
      | None => link_below readlink (base ++ [name]) rest
      end
  end.

(** [plain] says what is where: whether a file or a directory is at a
    path, what the working directory is, what docTR and the writes do.
    [getcwd_error] is what [os.getcwd()] raises, if it does (the
    directory was removed). [readlink names] is the target of the
    symbolic link at the path of these names under the root, if there is
    one: what [os.lstat] and [os.readlink] tell. [recursion_limit] is
    the number of nested calls left to the interpreter.
    [stat_failure_at p] is how [os.stat(p)] fails, if it does; ELOOP
    needs a symbolic link on the path. *)
Record system : Type := {
  plain : world;
  getcwd_error : option exn;
  readlink : list str -> option str;
  recursion_limit : nat;
  stat_failure_at : PurePath -> option stat_failure;
  eloop_behind_link :
    forall p, stat_failure_at p = Some Eloop ->
              link_below readlink [] (parts p) = true
}.

(** ** posixpath *)

(** [posixpath.isabs(s)], [s.startswith(sep)] *)
Definition isabs (s : str) : bool :=
  match s with
  | c :: _ => N.eqb c slash
  | [] => false
  end.

(** [posixpath.join(a, b)] *)
Definition posixpath_join (a b : str) : str :=
  if isabs b then b
  else if str_eqb a [] || isabs (rev a) then a ++ b
  else a ++ [slash] ++ b.

(** The count [normpath] keeps of the leading separators: two when there
    are exactly two, one otherwise. *)
Definition initial_slashes (path : str) : nat :=
  match path with
  | c1 :: c2 :: c3 :: _ =>
      if negb (N.eqb c1 slash) then 0
      else if N.eqb c2 slash && negb (N.eqb c3 slash) then 2 else 1
  | [c1; c2] =>
      if negb (N.eqb c1 slash) then 0 else if N.eqb c2 slash then 2 else 1
  | [c1] => if N.eqb c1 slash then 1 else 0
  | [] => 0
  end.

(** One step of the loop of [normpath] over the components. *)
Definition normpath_step (initial : nat) (new_comps : list str) (comp : str)
  : list str :=
  if str_eqb comp [] || str_eqb comp (lit ".") then new_comps
  else if negb (str_eqb comp (lit ".."))
          || (Nat.eqb initial 0 && match new_comps with [] => true | _ => false end)
          || match rev new_comps with
             | top :: _ => str_eqb top (lit "..")
             | [] => false
             end
  then new_comps ++ [comp]
  else removelast new_comps.

(** [posixpath.normpath(path)] *)
Definition normpath (path : str) : str :=
  match path with
  | [] => lit "."
  | _ :: _ =>
      let initial := initial_slashes path in
      let comps := fold_left (normpath_step initial) (split slash path) [] in
      match repeat slash initial ++ join [slash] comps with
      | [] => lit "."
      | text => text
      end
  end.

(** The text of the path of [names] under the root. *)
Definition text_of (names : list str) : str := slash :: join [slash] names.

(** ** os.path.realpath

    [_joinrealpath(path, rest, strict=False, seen)] on an absolute path.
    [path] is the list of the names resolved so far, [names] what
    [rest.partition(sep)] gives name after name. [seen] is the dict of
    the links met: a link maps to [None] while its target is being
    resolved and to the resolved path afterwards; the callee updates the
    dict of its caller, so the table is handed back with the result. *)
Definition table : Type := list (list str * option (list str)).

Fixpoint names_eqb (a b : list str) : bool :=
  match a, b with
  | [], [] => true
  | x :: a', y :: b' => str_eqb x y && names_eqb a' b'
  | _, _ => false
  end.

Fixpoint seen_lookup (seen : table) (key : list str) : option (option (list str)) :=
  match seen with
  | [] => None
  | (k, v) :: rest => if names_eqb k key then Some v else seen_lookup rest key
  end.

(** What the walk gives: the resolved path with the table ([ok] true);
    the text put together when a link loops ([ok] false); or the
    interpreter ran out of stack. *)
Inductive walked : Type :=
| Resolved (path : list str) (seen : table)
| Looped (text : str)
| TooDeep.

(** The [while rest:] loop; [follow path target seen] is the recursive
    call on the target of a link. *)
Fixpoint walk (follow : list str -> str -> table -> walked)
         (readlink : list str -> option str)
         (path names : list str) (seen : table) : walked :=
  match names with
  | [] => Resolved path seen
  | name :: rest =>
      if str_eqb name [] || str_eqb name (lit ".") then
        walk follow readlink path rest seen
      else if str_eqb name (lit "..") then
        walk follow readlink (removelast path) rest seen
      else
        let newpath := path ++ [name] in
        match readlink newpath with
        | None => walk follow readlink newpath rest seen
        | Some target =>
            match seen_lookup seen newpath with
            | Some (Some cached) => walk follow readlink cached rest seen
            | Some None =>
                Looped (posixpath_join (text_of newpath) (join [slash] rest))
            | None =>
                match follow path target ((newpath, None) :: seen) with
                | Resolved path' seen' =>
                    walk follow readlink path' rest ((newpath, Some path') :: seen')
                | Looped text => Looped (posixpath_join text (join [slash] rest))
                | TooDeep => TooDeep
                end
            end
        end
  end.

Fixpoint joinrealpath (depth : nat) (readlink : list str -> option str)
         (path names : list str) (seen : table) {struct depth} : walked :=
  walk (fun path' target seen' =>
          match depth with
          | O => TooDeep
          | S depth' =>
              joinrealpath depth' readlink
                (if isabs target then [] else path')
                (split slash (if isabs target then tl target else target))
                seen'
          end)
       readlink path names seen.

(** [os.path.realpath(filename)] for an absolute [filename], the only
    kind [resolve] below hands over: [rest = filename[1:]] and
    [path = sep], then [abspath], which is [normpath] on an absolute
    text. *)
Definition realpath (sys : system) (filename : str) : result str :=
  match joinrealpath (recursion_limit sys) (readlink sys) []
                     (split slash (tl filename)) [] with
  | Resolved path _ => Ok (normpath (text_of path))
  | Looped text => Ok (normpath text)
  | TooDeep => Raise (External (lit "maximum recursion depth exceeded"))
  end.

(** ** pathlib on a system *)

(** [Path.cwd()] *)
Definition Path_cwd (sys : system) : result PurePath :=
  match getcwd_error sys with
  | Some e => Raise e
  | None => Ok (PathResolver.Path_cwd (fs (plain sys)))
  end.

(** [p.resolve()]: [realpath] on the text of the path, and a [stat] of
    the result that turns ELOOP into a [RuntimeError] and lets any other
    failure pass. *)
Definition resolve (sys : system) (p : PurePath) : result PurePath :=
  q <- (if is_absolute p then Ok p
        else cwd <- Path_cwd sys ;; Ok (joinpath cwd p)) ;;
  s <- realpath sys (path_str q) ;;
  match stat_failure_at sys (Path s) with
  | Some Eloop =>
      Raise (External (lit "Symlink loop from '" ++ path_str (Path s) ++ lit "'"))
  | _ => Ok (Path s)
  end.

(** [p.exists()] and [p.is_file()]: ELOOP is taken for the absence of a
    file, any other failure of [stat] is raised. *)
Definition path_exists (sys : system) (p : PurePath) : result bool :=
  match stat_failure_at sys p with
  | Some (Errno e) => Raise e
  | Some Eloop => Ok false
  | None => Ok (PathResolver.path_exists (fs (plain sys)) p)
  end.

Definition is_file (sys : system) (p : PurePath) : result bool :=
  match stat_failure_at sys p with
  | Some (Errno e) => Raise e
  | Some Eloop => Ok false
  | None => Ok (PathResolver.is_file (fs (plain sys)) p)
  end.

(** ** resolve_input_path *)
Definition resolve_input_path (sys : system) (user_path : str)
  : result PurePath :=
  let p := Path user_path in
  if negb (is_absolute p) then
    cwd <- Path_cwd sys ;; resolve sys (joinpath cwd p)
  else Ok p.

(** ** main *)

(** Lines 159-168: [if args.json_out:]. *)
Definition write_json_out (sys : system) (args : Namespace) (exported : pyval)
  : io unit :=
  if truthy (PStr (json_out args)) then
    (out_path <- pure (resolve_input_path sys (json_out args)) ;;
     _ <- call (Mkdir (parent out_path))
               (mkdir_parents (plain sys) (parent out_path)) ;;
     call (WriteJson out_path exported)
          (write_json (plain sys) out_path exported))%io
  else io_ret tt.

(** The body of the [try]. *)
Definition try_body (sys : system) (args : Namespace) (img_path : PurePath)
  : io unit :=
  (exported <- run_ocr (plain sys) args img_path ;;
   _ <- write_json_out sys args exported ;;
   print_text (plain sys) args exported)%io.

(** How a call of [main] ends: it returns an exit code, or an exception
    leaves it. *)
Inductive ending : Type :=
| Returns (code : Z)
| Escapes (e : exn).

(** [main]: lines 121-131 are outside the [try], so that what they raise
    leaves [main]; what the body of the [try] raises is caught. *)
Definition main (sys : system) (argv : command_line) : ending * list event :=
  let args := parse_args argv in
  match resolve_input_path sys (image_path args) with
  | Raise e => (Escapes e, [])
  | Ok img_path =>
      match path_exists sys img_path with
      | Raise e => (Escapes e, [])
      | Ok false =>
          (Returns 2, [Stderr (lit "ERROR: File not found: " ++ path_str img_path)])
      | Ok true =>
          match is_file sys img_path with
          | Raise e => (Escapes e, [])
          | Ok false =>
              (Returns 2, [Stderr (lit "ERROR: Not a file: " ++ path_str img_path)])
          | Ok true =>
              match try_body sys args img_path [] with
              | (Ok _, trace) => (Returns 0, trace)
              | (Raise e, trace) =>
                  (Returns 1,
                   trace ++ [Stderr (lit "ERROR: OCR failed: " ++ exn_message e)])
              end
          end
      end
  end.

(** [raise SystemExit(main())]: the status of the process is the code
    [main] returned; an exception that left [main] ends the process with
    a traceback and the status 1. *)
Definition exit_status (e : ending) : Z :=
  match e with
  | Returns code => code
  | Escapes _ => 1
  end.

(** ** Walks that meet no link *)

(** No name the walk of [names] from [path] comes to is a symbolic
    link. *)
Fixpoint walk_link_free (readlink : list str -> option str)
         (path names : list str) : bool :=
  match names with
  | [] => true
  | name :: rest =>
      if str_eqb name [] || str_eqb name (lit ".") then
        walk_link_free readlink path rest
      else if str_eqb name (lit "..") then
        walk_link_free readlink (removelast path) rest
      else
        match readlink (path ++ [name]) with
        | None => walk_link_free readlink (path ++ [name]) rest
        | Some _ => false
        end
  end.

(** Resolving the absolute path [p] meets no symbolic link. *)
Definition meets_no_link (sys : system) (p : PurePath) : bool :=
  walk_link_free (readlink sys) [] (split slash (tl (path_str p))).

(** A system that adds nothing: no call fails, no name is a link. *)
Definition quiet (sys : system) : Prop :=
  getcwd_error sys = None
  /\ (forall names, readlink sys names = None)
  /\ (forall p, stat_failure_at sys p = None).

End Posix.

(* ===================================================================== *)
(** * Sample inputs *)
(* ===================================================================== *)

Module Samples.

(** A word as docTR exports it: its text, a confidence, a box. *)
Definition word (text : string) : pyval :=
  PDict [(lit "value", PStr (lit text));
         (lit "confidence", PFloat (S754_finite false 1 (-1)));
         (lit "geometry", PTuple [PTuple [PInt 0; PInt 0]; PTuple [PInt 1; PInt 1]])].
Definition line (words : list pyval) : pyval := PDict [(lit "words", PList words)].
Definition block (lines : list pyval) : pyval := PDict [(lit "lines", PList lines)].
Definition page (blocks : list pyval) : pyval := PDict [(lit "blocks", PList blocks)].
Definition export_of (pages : list pyval) : pyval := PDict [(lit "pages", PList pages)].

(** One page, one line: Hello World. *)
Definition hello_world : pyval :=
  export_of [page [block [line [word "Hello"; word "World"]]]].

(** Page 1 has the line A B, page 2 the line C. *)
Definition two_pages : pyval :=
  export_of [page [block [line [word "A"; word "B"]]];
            page [block [line [word "C"]]]].

(** Keys absent at every level, an empty value, and a page without text
    before the last one. *)
Definition sparse : pyval :=
  export_of [page [block [line [word "x"; PDict []; word ""]; PDict []]; PDict []];
            PDict [];
            page [block [line [word "y"]]]].

(** A process started in /home/user, where scan.png is a file and out is a
    directory. *)
Definition home : filesystem :=
  {| getcwd := lit "/home/user";
     getcwd_absolute := eq_refl;
     path_exists := fun p =>
       str_eqb (path_str p) (lit "/home/user/scan.png")
       || str_eqb (path_str p) (lit "/home/user/out");
     is_file := fun p => str_eqb (path_str p) (lit "/home/user/scan.png") |}.

(** docTR as a stub: every call returns, and the export is [exported]. *)
Definition stub_doctr (exported : pyval) : docTR :=
  {| document := unit; predictor := unit; prediction := unit;
     from_images := fun _ => Ok tt;
     ocr_predictor := fun _ _ _ => Ok tt;
     call_model := fun _ _ => Ok tt;
     export := fun _ => Ok exported |}.

(** docTR when the architecture name is unknown: building the predictor
    raises. *)
Definition unknown_arch_doctr : docTR :=
  {| document := unit; predictor := unit; prediction := unit;
     from_images := fun _ => Ok tt;
     ocr_predictor := fun _ _ _ => Raise (External (lit "unknown architecture"));
     call_model := fun _ _ => Ok tt;
     export := fun _ => Ok PNone |}.

(** A world where every write succeeds. *)
Definition writable (d : docTR) : world :=
  {| fs := home; doctr := d;
     mkdir_parents := fun _ => Ok tt;
     write_json := fun _ _ => Ok tt;
     print_stdout := fun _ => Ok tt |}.

(** A world where no directory can be made. *)
Definition read_only (d : docTR) : world :=
  {| fs := home; doctr := d;
     mkdir_parents := fun _ => Raise (External (lit "[Errno 13] Permission denied: '/data'"));
     write_json := fun _ _ => Ok tt;
     print_stdout := fun _ => Ok tt |}.

(** [doctr_ocr scan.png], [doctr_ocr missing.png], [doctr_ocr out] and
    [doctr_ocr scan.png --json-out /data/out.json]. *)
Definition scan : command_line :=
  {| arg_image_path := lit "scan.png"; opt_json_out := None;
     opt_det_arch := None; opt_reco_arch := None; flag_no_text := false |}.
Definition missing : command_line :=
  {| arg_image_path := lit "missing.png"; opt_json_out := None;
     opt_det_arch := None; opt_reco_arch := None; flag_no_text := false |}.
Definition directory : command_line :=
  {| arg_image_path := lit "out"; opt_json_out := None;
     opt_det_arch := None; opt_reco_arch := None; flag_no_text := false |}.
Definition scan_to_json : command_line :=
  with_json_out scan (Some (lit "/data/out.json")).

(** Values with outer spaces, an export without any text, an export whose
    only value is a number, and [doctr_ocr scan.png --no-text]. *)
Definition padded : pyval :=
  export_of [page [block [line [word " x"; word "y "]]]].
Definition blank : pyval :=
  export_of [page [block [line [word ""; PDict []]]]; PDict []; page []].
Definition malformed : pyval :=
  export_of [page [block [line [PDict [(lit "value", PInt 5)]]]]].
Definition scan_no_text : command_line :=
  {| arg_image_path := lit "scan.png"; opt_json_out := None;
     opt_det_arch := None; opt_reco_arch := None; flag_no_text := true |}.

(** ** Systems *)

(** The system that adds nothing to a world. *)
Definition posix (w : world) : Posix.system :=
  {| Posix.plain := w;
     Posix.getcwd_error := None;
     Posix.readlink := fun _ => None;
     Posix.recursion_limit := 1000;
     Posix.stat_failure_at := fun _ => None;
     Posix.eloop_behind_link := ltac:(intros p H; cbv beta in H; discriminate H) |}.

(** In /home/user, [link] points to the directory out beside it and
    [link2] to /home/other/dir. *)
Definition links (names : list str) : option str :=
  if Posix.names_eqb names [lit "home"; lit "user"; lit "link"]
  then Some (lit "out")
  else if Posix.names_eqb names [lit "home"; lit "user"; lit "link2"]
  then Some (lit "/home/other/dir")
  else None.

Definition linked (w : world) : Posix.system :=
  {| Posix.plain := w;
     Posix.getcwd_error := None;
     Posix.readlink := links;
     Posix.recursion_limit := 1000;
     Posix.stat_failure_at := fun _ => None;
     Posix.eloop_behind_link := ltac:(intros p H; cbv beta in H; discriminate H) |}.

(** In /home/user, [loopa] points to [loopb] and [loopb] to [loopa]; a
    [stat] through either fails with ELOOP. *)
Definition loops (names : list str) : option str :=
  if Posix.names_eqb names [lit "home"; lit "user"; lit "loopa"]
  then Some (lit "loopb")
  else if Posix.names_eqb names [lit "home"; lit "user"; lit "loopb"]
  then Some (lit "loopa")
  else None.

Definition looping (w : world) : Posix.system :=
  {| Posix.plain := w;
     Posix.getcwd_error := None;
     Posix.readlink := loops;
     Posix.recursion_limit := 1000;
     Posix.stat_failure_at := fun p =>
       if Posix.link_below loops [] (parts p) then Some Posix.Eloop else None;
     Posix.eloop_behind_link :=
       ltac:(intros p H; cbv beta in H;
             destruct (Posix.link_below loops [] (parts p));
             [reflexivity | discriminate H]) |}.

(** A system where a name of more than 255 characters makes [stat] fail
    with ENAMETOOLONG. *)
Definition name_too_long (p : PurePath) : bool :=
  existsb (fun name => Nat.ltb 255 (List.length name)) (parts p).

Definition file_name_too_long (p : PurePath) : exn :=
  External (lit "[Errno 36] File name too long: '" ++ path_str p ++ lit "'").

Definition long_names (w : world) : Posix.system :=
  {| Posix.plain := w;
     Posix.getcwd_error := None;
     Posix.readlink := fun _ => None;
     Posix.recursion_limit := 1000;
     Posix.stat_failure_at := fun p =>
       if name_too_long p then Some (Posix.Errno (file_name_too_long p)) else None;
     Posix.eloop_behind_link :=
       ltac:(intros p H; cbv beta in H; destruct (name_too_long p);
             discriminate H) |}.

(** A process whose working directory was removed. *)
Definition no_such_directory : exn :=
  External (lit "[Errno 2] No such file or directory").

Definition without_cwd (w : world) : Posix.system :=
  {| Posix.plain := w;
     Posix.getcwd_error := Some no_such_directory;
     Posix.readlink := fun _ => None;
     Posix.recursion_limit := 1000;
     Posix.stat_failure_at := fun _ => None;
     Posix.eloop_behind_link := ltac:(intros p H; cbv beta in H; discriminate H) |}.

(** [doctr_ocr aaa...a] with a name of 300 characters, and
    [doctr_ocr link2/../x]. *)
Definition long_name : str := repeat 97%N 300.
Definition scan_long_name : command_line :=
  {| arg_image_path := long_name; opt_json_out := None;
     opt_det_arch := None; opt_reco_arch := None; flag_no_text := false |}.

End Samples.

(* ===================================================================== *)
(** * Facts about strings and the error monad *)
(* ===================================================================== *)

Unset Implicit Arguments.

Section StrFacts.

Lemma str_eqb_eq (a b : str) : str_eqb a b = true <-> a = b.
Proof.
  revert b; induction a as [|x a IH]; intros [|y b]; simpl;
    try (split; [discriminate | discriminate || congruence]); try tauto.
  rewrite andb_true_iff, N.eqb_eq, IH.
  split; [intros [-> ->]; reflexivity | intros H; inversion H; auto].
Qed.

Lemma str_eqb_refl (a : str) : str_eqb a a = true.
Proof. apply str_eqb_eq; reflexivity. Qed.

Lemma str_eqb_neq (a b : str) : str_eqb a b = false <-> a <> b.
Proof.
  rewrite <- str_eqb_eq. destruct (str_eqb a b); split; congruence.
Qed.

Lemma nonempty_eqb (s : str) : negb (str_eqb s []) = Reference.nonempty s.
Proof. destruct s; reflexivity. Qed.

Lemma join_cons_nonempty (sep x : str) (rest : list str) :
  x <> [] -> join sep (x :: rest) <> [].
Proof.
  intros Hx. simpl. destruct rest.
  - exact Hx.
  - destruct x; [congruence | discriminate].
Qed.

(** [split] of a text with a separator in it: the fields before it, then
    the fields after it. *)
Lemma split_app (sep : N) (a b : str) :
  split sep (a ++ sep :: b) = split sep a ++ split sep b.
Proof.
  induction a as [|c a IH]; simpl.
  - rewrite N.eqb_refl. reflexivity.
  - destruct (N.eqb c sep); [rewrite IH; reflexivity|].
    rewrite IH. destruct (split sep a) as [|f fs] eqn:E; [|reflexivity].
    exfalso. destruct a as [|c' a']; simpl in E; [discriminate|].
    destruct (N.eqb c' sep); [discriminate|].
    destruct (split sep a'); discriminate.
Qed.

End StrFacts.

Section MonadFacts.

(** A loop whose body appends [f x] to the state appends them all. *)
Lemma for_each_appends {A B} (f : A -> list B)
      (body : A -> list B -> result (list B)) (xs : list A) :
  Forall (fun x => forall out, body x out = Ok (out ++ f x)) xs ->
  forall out, for_each xs body out = Ok (out ++ flat_map f xs).
Proof.
  induction 1 as [|x xs Hx _ IH]; intros out; simpl.
  - rewrite app_nil_r. reflexivity.
  - rewrite Hx. simpl. rewrite IH, app_assoc. reflexivity.
Qed.

End MonadFacts.

(* ===================================================================== *)
(** * The flattener on well-formed exports *)
(* ===================================================================== *)

Section FlattenFacts.

Import Reference.

(** What [is_line], [is_block], [is_page] and [is_export] give: the
    object is a dict, [get] returns the list of its children, and each
    child is well formed. *)
Lemma holds_list_inv (key : str) (item_ok : pyval -> bool) (v : pyval) :
  holds_list key item_ok v = true ->
  py_get v key (PList []) = Ok (PList (children key v))
  /\ forallb item_ok (children key v) = true.
Proof.
  unfold holds_list, children, py_get.
  destruct v; try discriminate.
  destruct (dict_lookup entries key) as [[]|]; try discriminate; auto.
Qed.

Lemma word_body_wf (w : pyval) (words : list pyval) :
  is_word w = true ->
  word_body w words =
    Ok (if nonempty (word_value w) then words ++ [PStr (word_value w)]
        else words).
Proof.
  unfold is_word, word_body, word_value, py_get.
  destruct w; try discriminate.
  destruct (dict_lookup entries (lit "value")) as [[]|];
    try discriminate; intros _; simpl; [|reflexivity].
  rewrite nonempty_eqb. reflexivity.
Qed.

Lemma words_loop_wf (ws : list pyval) :
  forallb is_word ws = true ->
  forall words,
    for_each ws word_body words =
      Ok (words ++ map PStr (filter nonempty (map word_value ws))).
Proof.
  induction ws as [|w ws IH]; simpl; intros Hwf words.
  - rewrite app_nil_r. reflexivity.
  - apply andb_true_iff in Hwf as [Hw Hws].
    rewrite (word_body_wf _ _ Hw). simpl.
    rewrite (IH Hws).
    destruct (nonempty (word_value w)); simpl; [|reflexivity].
    rewrite <- app_assoc. reflexivity.
Qed.

Lemma as_strs_strings (ss : list str) (index : nat) :
  as_strs index (map PStr ss) = Ok ss.
Proof.
  revert index; induction ss as [|s ss IH]; intros index; simpl; [reflexivity|].
  rewrite IH. reflexivity.
Qed.

Lemma str_join_strings (sep : str) (ss : list str) :
  str_join sep (map PStr ss) = Ok (join sep ss).
Proof. unfold str_join. rewrite as_strs_strings. reflexivity. Qed.

Lemma line_body_wf (line : pyval) (out : list str) :
  is_line line = true -> line_body line out = Ok (out ++ line_entry line).
Proof.
  intros Hwf. apply holds_list_inv in Hwf as [Hget Hitems].
  unfold line_body. rewrite Hget. simpl.
  rewrite (words_loop_wf _ Hitems). simpl.
  unfold line_entry, line_values.
  destruct (filter nonempty (map word_value (children (lit "words") line)))
    as [|v vs] eqn:E.
  - simpl. rewrite app_nil_r. reflexivity.
  - change (PStr v :: map PStr vs) with (map PStr (v :: vs)).
    cbv beta iota. rewrite str_join_strings. reflexivity.
Qed.

Lemma forallb_Forall {A} (p : A -> bool) (P : A -> Prop) (xs : list A) :
  (forall x, p x = true -> P x) -> forallb p xs = true -> Forall P xs.
Proof.
  intros HP Hall. apply Forall_forall. intros x Hin.
  apply HP. rewrite forallb_forall in Hall. auto.
Qed.

Lemma block_body_wf (block : pyval) (out : list str) :
  is_block block = true -> block_body block out = Ok (out ++ block_entries block).
Proof.
  intros Hwf. apply holds_list_inv in Hwf as [Hget Hitems].
  unfold block_body. rewrite Hget. simpl.
  apply for_each_appends.
  eapply forallb_Forall; [|exact Hitems].
  intros line Hline out'. apply line_body_wf, Hline.
Qed.

Lemma last_page_test (len_pages page_index : nat) :
  negb (Z.eqb (Z.of_nat page_index) (Z.of_nat len_pages - 1))
  = negb (Nat.eqb (S page_index) len_pages).
Proof.
  f_equal.
  destruct (Nat.eqb_spec (S page_index) len_pages) as [E|E].
  - apply Z.eqb_eq. lia.
  - apply Z.eqb_neq. lia.
Qed.

Lemma page_body_wf (len_pages page_index : nat) (page : pyval) (out : list str) :
  is_page page = true ->
  page_body len_pages (page_index, page) out =
    Ok (out ++ page_entries page ++ separator len_pages page_index).
Proof.
  intros Hwf. apply holds_list_inv in Hwf as [Hget Hitems].
  unfold page_body. rewrite Hget. simpl.
  erewrite for_each_appends with (f := block_entries).
  - simpl. rewrite last_page_test. unfold separator, page_entries.
    destruct (Nat.eqb (S page_index) len_pages); simpl.
    + rewrite app_nil_r. reflexivity.
    + rewrite app_assoc. reflexivity.
  - eapply forallb_Forall; [|exact Hitems].
    intros block Hblock out'. apply block_body_wf, Hblock.
Qed.

Lemma collect_output_lines_wf (exported : pyval) :
  is_export exported = true ->
  collect_output_lines exported = Ok (output_entries exported).
Proof.
  intros Hwf. apply holds_list_inv in Hwf as [Hget Hitems].
  unfold collect_output_lines, output_entries. rewrite Hget. simpl.
  set (pages := children (lit "pages") exported) in *.
  change (@nil str) with (@nil str ++ []) at 1.
  rewrite for_each_appends
    with (f := fun entry : nat * pyval =>
                 page_entries (snd entry)
                 ++ separator (List.length pages) (fst entry)).
  - reflexivity.
  - apply Forall_forall. intros [i page] Hin out.
    apply page_body_wf.
    rewrite forallb_forall in Hitems. apply Hitems.
    unfold enumerate in Hin. eapply in_combine_r, Hin.
Qed.

Lemma extract_text_wf (exported : pyval) :
  is_export exported = true ->
  extract_text_from_doctr_export exported = Ok (flatten exported).
Proof.
  intros Hwf. unfold extract_text_from_doctr_export.
  rewrite (collect_output_lines_wf _ Hwf). reflexivity.
Qed.

End FlattenFacts.

(* ===================================================================== *)
(** * Text entries, separators and absent keys *)
(* ===================================================================== *)

Section EntryFacts.

Import Reference.

Lemma filter_nonempty_all (ss : list str) :
  Forall (fun s => s <> []) (filter nonempty ss).
Proof.
  apply Forall_forall. intros s Hin.
  apply filter_In in Hin as [_ Hs]. destruct s; [discriminate | congruence].
Qed.

(** A text entry is never the empty string. *)
Lemma line_entry_nonempty (line : pyval) :
  Forall (fun s => s <> []) (line_entry line).
Proof.
  unfold line_entry.
  pose proof (filter_nonempty_all (map word_value (children (lit "words") line))) as H.
  fold (line_values line) in H.
  destruct (line_values line) as [|v vs]; constructor; [|constructor].
  apply join_cons_nonempty. inversion H; assumption.
Qed.

Lemma flat_map_Forall {A B} (P : B -> Prop) (f : A -> list B) (xs : list A) :
  (forall x, Forall P (f x)) -> Forall P (flat_map f xs).
Proof.
  intros Hf. induction xs as [|x xs IH]; simpl; [constructor|].
  apply Forall_app. split; auto.
Qed.

Lemma page_entries_nonempty (page : pyval) :
  Forall (fun s => s <> []) (page_entries page).
Proof.
  unfold page_entries, block_entries.
  apply flat_map_Forall; intros block.
  apply flat_map_Forall; intros line.
  apply line_entry_nonempty.
Qed.

Lemma count_occ_absent (x : str) (ss : list str) :
  Forall (fun s => s <> x) ss -> count_occ str_eq_dec ss x = 0.
Proof.
  intros H. apply count_occ_not_In. intros Hin.
  rewrite Forall_forall in H. exact (H x Hin eq_refl).
Qed.

(** The separators among the entries of the pages numbered from [start],
    the last of which is numbered [len_pages - 1]. *)
Lemma count_separators (len_pages : nat) (pages : list pyval) (start : nat) :
  start + List.length pages = len_pages ->
  count_occ str_eq_dec
    (flat_map (fun entry : nat * pyval =>
                 page_entries (snd entry) ++ separator len_pages (fst entry))
              (combine (seq start (List.length pages)) pages)) []
  = Nat.pred (List.length pages).
Proof.
  revert start; induction pages as [|page pages IH]; intros start Hlen;
    simpl in *; [reflexivity|].
  rewrite !count_occ_app.
  rewrite (count_occ_absent _ _ (page_entries_nonempty page)).
  rewrite IH by lia.
  unfold separator.
  destruct (Nat.eqb_spec (S start) len_pages) as [E|E]; simpl.
  - destruct pages; simpl in *; [reflexivity | lia].
  - destruct pages; simpl in *; [lia | reflexivity].
Qed.

(** ** Absent keys written out *)

Lemma dict_lookup_set (entries : list (str * pyval)) (key : str) (v : pyval) :
  dict_lookup (dict_set entries key v) key = Some v.
Proof.
  induction entries as [|[k x] rest IH]; simpl.
  - rewrite str_eqb_refl. reflexivity.
  - destruct (str_eqb k key) eqn:E; simpl; rewrite E; auto.
Qed.

Lemma children_with_default (key : str) (item_ok : pyval -> bool)
      (on_item : pyval -> pyval) (v : pyval) :
  holds_list key item_ok v = true ->
  children key (with_default key (PList []) on_item v)
  = map on_item (children key v).
Proof.
  unfold holds_list, with_default, children.
  destruct v; try discriminate.
  destruct (dict_lookup entries key) as [[]|] eqn:E; try discriminate; intros _;
    rewrite dict_lookup_set; reflexivity.
Qed.

Lemma holds_list_with_default (key : str) (item_ok : pyval -> bool)
      (on_item : pyval -> pyval) (v : pyval) :
  (forall item, item_ok item = true -> item_ok (on_item item) = true) ->
  holds_list key item_ok v = true ->
  holds_list key item_ok (with_default key (PList []) on_item v) = true.
Proof.
  intros Hitem. unfold holds_list, with_default.
  destruct v; try discriminate.
  destruct (dict_lookup entries key) as [[]|] eqn:E; try discriminate; intros H;
    rewrite dict_lookup_set; [|reflexivity].
  rewrite forallb_forall in *. intros y Hy.
  apply in_map_iff in Hy as [x [<- Hx]]. auto.
Qed.

Lemma word_defaults_ok (w : pyval) :
  is_word w = true ->
  is_word (word_defaults w) = true /\ word_value (word_defaults w) = word_value w.
Proof.
  unfold is_word, word_defaults, with_default, word_value.
  destruct w; try discriminate.
  destruct (dict_lookup entries (lit "value")) as [[]|] eqn:E;
    try discriminate; intros _; rewrite ?dict_lookup_set, ?E; auto.
Qed.

Lemma flat_map_map_ext {A B} (f h : A -> list B) (g : A -> A) (xs : list A) :
  (forall x, In x xs -> f (g x) = h x) -> flat_map f (map g xs) = flat_map h xs.
Proof.
  induction xs as [|x xs IH]; simpl; intros H; [reflexivity|].
  rewrite H by auto. rewrite IH by auto. reflexivity.
Qed.

Lemma line_defaults_ok (line : pyval) :
  is_line line = true ->
  is_line (line_defaults line) = true
  /\ line_entry (line_defaults line) = line_entry line.
Proof.
  intros Hwf. split.
  - apply holds_list_with_default; [|exact Hwf].
    intros w Hw. apply word_defaults_ok, Hw.
  - unfold line_entry, line_values, line_defaults.
    rewrite (children_with_default _ _ _ _ Hwf), map_map.
    apply holds_list_inv in Hwf as [_ Hitems].
    rewrite forallb_forall in Hitems.
    erewrite map_ext_in; [reflexivity|].
    intros w Hin. apply word_defaults_ok, Hitems, Hin.
Qed.

Lemma block_defaults_ok (block : pyval) :
  is_block block = true ->
  is_block (block_defaults block) = true
  /\ block_entries (block_defaults block) = block_entries block.
Proof.
  intros Hwf. split.
  - apply holds_list_with_default; [|exact Hwf].
    intros l Hl. apply line_defaults_ok, Hl.
  - unfold block_entries, block_defaults.
    rewrite (children_with_default _ _ _ _ Hwf).
    apply holds_list_inv in Hwf as [_ Hitems].
    rewrite forallb_forall in Hitems.
    apply flat_map_map_ext. intros l Hin. apply line_defaults_ok, Hitems, Hin.
Qed.

Lemma page_defaults_ok (page : pyval) :
  is_page page = true ->
  is_page (page_defaults page) = true
  /\ page_entries (page_defaults page) = page_entries page.
Proof.
  intros Hwf. split.
  - apply holds_list_with_default; [|exact Hwf].
    intros b Hb. apply block_defaults_ok, Hb.
  - unfold page_entries, page_defaults.
    rewrite (children_with_default _ _ _ _ Hwf).
    apply holds_list_inv in Hwf as [_ Hitems].
    rewrite forallb_forall in Hitems.
    apply flat_map_map_ext. intros b Hin. apply block_defaults_ok, Hitems, Hin.
Qed.

Lemma enumerate_map {A B} (g : A -> B) (xs : list A) (start : nat) :
  combine (seq start (List.length (map g xs))) (map g xs)
  = map (fun entry => (fst entry, g (snd entry)))
        (combine (seq start (List.length xs)) xs).
Proof.
  revert start; induction xs as [|x xs IH]; intros start; simpl; [reflexivity|].
  rewrite IH. reflexivity.
Qed.

Lemma export_defaults_ok (exported : pyval) :
  is_export exported = true ->
  is_export (export_defaults exported) = true
  /\ flatten (export_defaults exported) = flatten exported.
Proof.
  intros Hwf. split.
  - apply holds_list_with_default; [|exact Hwf].
    intros p Hp. apply page_defaults_ok, Hp.
  - unfold flatten, output_entries, export_defaults.
    rewrite (children_with_default _ _ _ _ Hwf).
    apply holds_list_inv in Hwf as [_ Hitems].
    rewrite forallb_forall in Hitems.
    unfold enumerate. rewrite enumerate_map, length_map.
    do 2 f_equal.
    rewrite !flat_map_concat_map, map_map. f_equal.
    apply map_ext_in. intros [i p] Hin. simpl. f_equal.
    apply page_defaults_ok, Hitems. eapply in_combine_r, Hin.
Qed.

(** ** Words without text left out *)

Lemma children_with_items (key : str) (item_ok : pyval -> bool)
      (on_items : list pyval -> list pyval) (v : pyval) :
  on_items [] = [] ->
  holds_list key item_ok v = true ->
  children key (with_items key on_items v) = on_items (children key v).
Proof.
  intros Hnil. unfold holds_list, with_items, children.
  destruct v; try discriminate.
  destruct (dict_lookup entries key) as [[]|] eqn:E; try discriminate; intros _.
  - rewrite dict_lookup_set. reflexivity.
  - rewrite E, Hnil. reflexivity.
Qed.

Lemma holds_list_with_items (key : str) (item_ok : pyval -> bool)
      (on_items : list pyval -> list pyval) (v : pyval) :
  (forall items, forallb item_ok items = true ->
                 forallb item_ok (on_items items) = true) ->
  holds_list key item_ok v = true ->
  holds_list key item_ok (with_items key on_items v) = true.
Proof.
  intros Hitems. unfold holds_list, with_items.
  destruct v; try discriminate.
  destruct (dict_lookup entries key) as [[]|] eqn:E; try discriminate; intros H.
  - rewrite dict_lookup_set. apply Hitems, H.
  - rewrite E. reflexivity.
Qed.

Lemma forallb_filter {A} (ok keep : A -> bool) (xs : list A) :
  forallb ok xs = true -> forallb ok (filter keep xs) = true.
Proof.
  rewrite !forallb_forall. intros H x Hx.
  apply filter_In in Hx as [Hx _]. auto.
Qed.

Lemma forallb_map_ok {A} (ok : A -> bool) (g : A -> A) (xs : list A) :
  (forall x, ok x = true -> ok (g x) = true) ->
  forallb ok xs = true -> forallb ok (map g xs) = true.
Proof.
  intros Hg. rewrite !forallb_forall. intros H y Hy.
  apply in_map_iff in Hy as [x [<- Hx]]. auto.
Qed.

(** The values a line collects are those of its words that have text. *)
Lemma values_with_text (ws : list pyval) :
  filter nonempty (map word_value (filter has_text ws))
  = filter nonempty (map word_value ws).
Proof.
  induction ws as [|w ws IH]; simpl; [reflexivity|].
  unfold has_text at 1.
  destruct (nonempty (word_value w)) eqn:E; simpl; rewrite ?E, IH; reflexivity.
Qed.

Lemma line_with_text_ok (line : pyval) :
  is_line line = true ->
  is_line (line_with_text line) = true
  /\ line_entry (line_with_text line) = line_entry line.
Proof.
  intros Hwf. split.
  - apply holds_list_with_items; [|exact Hwf].
    intros items. apply forallb_filter.
  - unfold line_entry, line_values, line_with_text.
    rewrite (children_with_items _ is_word _ _ eq_refl Hwf), values_with_text.
    reflexivity.
Qed.

Lemma block_with_text_ok (block : pyval) :
  is_block block = true ->
  is_block (block_with_text block) = true
  /\ block_entries (block_with_text block) = block_entries block.
Proof.
  intros Hwf. split.
  - apply holds_list_with_items; [|exact Hwf].
    intros items. apply forallb_map_ok. intros l Hl. apply line_with_text_ok, Hl.
  - unfold block_entries, block_with_text.
    rewrite (children_with_items _ is_line _ _ eq_refl Hwf).
    apply holds_list_inv in Hwf as [_ Hitems].
    rewrite forallb_forall in Hitems.
    apply flat_map_map_ext. intros l Hin. apply line_with_text_ok, Hitems, Hin.
Qed.

Lemma page_with_text_ok (page : pyval) :
  is_page page = true ->
  is_page (page_with_text page) = true
  /\ page_entries (page_with_text page) = page_entries page.
Proof.
  intros Hwf. split.
  - apply holds_list_with_items; [|exact Hwf].
    intros items. apply forallb_map_ok. intros b Hb. apply block_with_text_ok, Hb.
  - unfold page_entries, page_with_text.
    rewrite (children_with_items _ is_block _ _ eq_refl Hwf).
    apply holds_list_inv in Hwf as [_ Hitems].
    rewrite forallb_forall in Hitems.
    apply flat_map_map_ext. intros b Hin. apply block_with_text_ok, Hitems, Hin.
Qed.

Lemma export_with_text_ok (exported : pyval) :
  is_export exported = true ->
  is_export (export_with_text exported) = true
  /\ flatten (export_with_text exported) = flatten exported.
Proof.
  intros Hwf. split.
  - apply holds_list_with_items; [|exact Hwf].
    intros items. apply forallb_map_ok. intros p Hp. apply page_with_text_ok, Hp.
  - unfold flatten, output_entries, export_with_text.
    rewrite (children_with_items _ is_page _ _ eq_refl Hwf).
    apply holds_list_inv in Hwf as [_ Hitems].
    rewrite forallb_forall in Hitems.
    unfold enumerate. rewrite enumerate_map, length_map.
    do 2 f_equal.
    rewrite !flat_map_concat_map, map_map. f_equal.
    apply map_ext_in. intros [i p] Hin. simpl. f_equal.
    apply page_with_text_ok, Hitems. eapply in_combine_r, Hin.
Qed.

End EntryFacts.

(* ===================================================================== *)
(** * The flattener on a decoded export *)
(* ===================================================================== *)

Section JsonFacts.

Import Json.

Lemma decoded_dict (entries : list (str * pyval)) :
  decoded (PDict entries)
  = PDict (map (fun kv => (fst kv, decoded (snd kv))) entries).
Proof.
  simpl. f_equal.
  induction entries as [|[k x] rest IH]; simpl; [reflexivity|].
  rewrite IH. reflexivity.
Qed.

Lemma dict_lookup_decoded (entries : list (str * pyval)) (key : str) :
  dict_lookup (map (fun kv => (fst kv, decoded (snd kv))) entries) key
  = option_map decoded (dict_lookup entries key).
Proof.
  induction entries as [|[k x] rest IH]; simpl; [reflexivity|].
  destruct (str_eqb k key); [reflexivity | exact IH].
Qed.

Lemma type_of_decoded (v : pyval) : type_of (decoded v) = type_decoded (type_of v).
Proof. destruct v; reflexivity. Qed.

Lemma py_get_decoded (v : pyval) (key : str) (default : pyval) :
  decoded default = default ->
  py_get (decoded v) key default = result_decoded decoded (py_get v key default).
Proof.
  intros Hdefault.
  destruct v; try reflexivity.
  rewrite decoded_dict. unfold py_get. rewrite dict_lookup_decoded.
  destruct (dict_lookup entries key); simpl; congruence.
Qed.

Lemma py_iter_decoded (v : pyval) :
  py_iter (decoded v) = result_decoded (map decoded) (py_iter v).
Proof.
  destruct v; try reflexivity.
  - simpl. rewrite map_map. reflexivity.
  - rewrite decoded_dict. simpl. rewrite !map_map. reflexivity.
Qed.

Lemma truthy_decoded (v : pyval) : truthy (decoded v) = truthy v.
Proof.
  destruct v; try reflexivity.
  - destruct items; reflexivity.
  - destruct items; reflexivity.
  - rewrite decoded_dict. destruct entries; reflexivity.
Qed.

Lemma as_strs_decoded (items : list pyval) (index : nat) :
  as_strs index (map decoded items) = result_decoded same (as_strs index items).
Proof.
  revert index; induction items as [|v items IH]; intros index; [reflexivity|].
  destruct v; try reflexivity.
  simpl. rewrite IH. destruct (as_strs (S index) items); reflexivity.
Qed.

Lemma str_join_decoded (sep : str) (items : list pyval) :
  str_join sep (map decoded items) = result_decoded same (str_join sep items).
Proof.
  unfold str_join. rewrite as_strs_decoded.
  destruct (as_strs 0 items); reflexivity.
Qed.

(** A loop over decoded items whose body commutes with decoding. *)
Lemma for_each_decoded {A S} (on_item : A -> A) (on_state : S -> S)
      (body : A -> S -> result S) (xs : list A) :
  (forall x s, body (on_item x) (on_state s) = result_decoded on_state (body x s)) ->
  forall s,
    for_each (map on_item xs) body (on_state s)
    = result_decoded on_state (for_each xs body s).
Proof.
  intros Hbody. induction xs as [|x xs IH]; intros s; simpl; [reflexivity|].
  rewrite Hbody. destruct (body x s); simpl; auto.
Qed.

Lemma word_body_decoded (w : pyval) (words : list pyval) :
  word_body (decoded w) (map decoded words)
  = result_decoded (map decoded) (word_body w words).
Proof.
  unfold word_body. rewrite py_get_decoded by reflexivity.
  destruct (py_get w (lit "value") (PStr [])) as [value|e]; simpl; [|reflexivity].
  rewrite truthy_decoded. destruct (truthy value); [|reflexivity].
  rewrite map_app. reflexivity.
Qed.

Lemma line_body_decoded (line : pyval) (out : list str) :
  line_body (decoded line) (same out) = result_decoded same (line_body line out).
Proof.
  unfold line_body, same. rewrite py_get_decoded by reflexivity.
  destruct (py_get line (lit "words") (PList [])) as [ws|e]; simpl; [|reflexivity].
  rewrite py_iter_decoded.
  destruct (py_iter ws) as [items|e]; simpl; [|reflexivity].
  pose proof (for_each_decoded decoded (map decoded) word_body items
                word_body_decoded []) as Hwords.
  simpl in Hwords. rewrite Hwords.
  destruct (for_each items word_body []) as [words|e]; simpl; [|reflexivity].
  destruct words as [|v vs]; [reflexivity|].
  change (decoded v :: map decoded vs) with (map decoded (v :: vs)).
  cbv beta iota. rewrite str_join_decoded.
  destruct (str_join space (v :: vs)); reflexivity.
Qed.

Lemma block_body_decoded (block : pyval) (out : list str) :
  block_body (decoded block) (same out) = result_decoded same (block_body block out).
Proof.
  unfold block_body. rewrite py_get_decoded by reflexivity.
  destruct (py_get block (lit "lines") (PList [])) as [ls|e]; simpl; [|reflexivity].
  rewrite py_iter_decoded.
  destruct (py_iter ls) as [items|e]; simpl; [|reflexivity].
  apply (for_each_decoded decoded same line_body items line_body_decoded).
Qed.

Lemma page_body_decoded (len_pages : nat) (entry : nat * pyval) (out : list str) :
  page_body len_pages (fst entry, decoded (snd entry)) (same out)
  = result_decoded same (page_body len_pages entry out).
Proof.
  destruct entry as [page_index page]. unfold page_body, fst, snd.
  rewrite py_get_decoded by reflexivity.
  destruct (py_get page (lit "blocks") (PList [])) as [bs|e]; simpl; [|reflexivity].
  rewrite py_iter_decoded.
  destruct (py_iter bs) as [items|e]; simpl; [|reflexivity].
  rewrite (for_each_decoded decoded same block_body items block_body_decoded).
  destruct (for_each items block_body out) as [out'|e]; simpl; [|reflexivity].
  destruct (negb _); reflexivity.
Qed.

Lemma collect_output_lines_decoded (exported : pyval) :
  collect_output_lines (decoded exported)
  = result_decoded same (collect_output_lines exported).
Proof.
  unfold collect_output_lines. rewrite py_get_decoded by reflexivity.
  destruct (py_get exported (lit "pages") (PList [])) as [pages|e]; simpl;
    [|reflexivity].
  rewrite py_iter_decoded.
  destruct (py_iter pages) as [items|e]; simpl; [|reflexivity].
  unfold enumerate. rewrite enumerate_map, length_map.
  apply (for_each_decoded (fun entry => (fst entry, decoded (snd entry))) same
           (page_body (List.length items)) _ (page_body_decoded _) []).
Qed.

Lemma extract_text_decoded (exported : pyval) :
  extract_text_from_doctr_export (decoded exported)
  = result_decoded same (extract_text_from_doctr_export exported).
Proof.
  unfold extract_text_from_doctr_export.
  rewrite collect_output_lines_decoded.
  destruct (collect_output_lines exported); reflexivity.
Qed.

End JsonFacts.

(* ===================================================================== *)
(** * The path resolver *)
(* ===================================================================== *)

Section PathFacts.

(** The parser keeps the fields of the whole text that are neither empty
    nor [.]: the separators of the root only make empty fields. *)
Lemma parts_Path (s : str) : parts (Path s) = filter keep_part (split slash s).
Proof.
  unfold Path, splitroot.
  destruct s as [|c1 rest1]; [reflexivity|].
  cbn [split]. destruct (N.eqb c1 slash) eqn:E1; simpl negb; cbv iota;
    [|cbn [parts split]; rewrite E1; reflexivity].
  destruct rest1 as [|c2 rest2]; [reflexivity|].
  cbn [split]. destruct (N.eqb c2 slash) eqn:E2; simpl negb; cbv iota;
    [|cbn [parts split]; rewrite E2; reflexivity].
  destruct rest2 as [|c3 rest3]; [reflexivity|].
  destruct (N.eqb c3 slash) eqn:E3; cbn [parts split]; rewrite ?E2, ?E3;
    reflexivity.
Qed.

Lemma is_absolute_Path (s : str) :
  is_absolute (Path s)
  = match s with
    | c :: _ => N.eqb c slash
    | [] => false
    end.
Proof.
  unfold is_absolute, Path, splitroot.
  destruct s as [|c1 rest1]; [reflexivity|].
  destruct (N.eqb c1 slash); simpl negb; cbv iota; [|reflexivity].
  destruct rest1 as [|c2 rest2]; [reflexivity|].
  destruct (N.eqb c2 slash); simpl negb; cbv iota; [|reflexivity].
  destruct rest2 as [|c3 rest3]; [reflexivity|].
  destruct (N.eqb c3 slash); reflexivity.
Qed.

Lemma getcwd_starts_with_slash (fs : filesystem) :
  exists rest, getcwd fs = slash :: rest.
Proof.
  pose proof (getcwd_absolute fs) as H. rewrite is_absolute_Path in H.
  destruct (getcwd fs) as [|c rest]; [discriminate|].
  apply N.eqb_eq in H. subst c. eauto.
Qed.

(** The walk skips what the parser drops. *)
Lemma realpath_walk_filter (names path : list str) :
  realpath_walk path (filter keep_part names) = realpath_walk path names.
Proof.
  revert path; induction names as [|name names IH]; intros path; [reflexivity|].
  cbn [filter realpath_walk]. unfold keep_part at 1.
  destruct (str_eqb name []) eqn:E0; simpl; [apply IH|].
  destruct (str_eqb name (lit ".")) eqn:E1; simpl; [apply IH|].
  rewrite E0, E1. simpl.
  destruct (str_eqb name (lit "..")); apply IH.
Qed.

Lemma rev_removelast {A} (l : list A) : rev (removelast l) = tl (rev l).
Proof.
  destruct (rev l) as [|x r] eqn:E.
  - apply (f_equal (@rev A)) in E. rewrite rev_involutive in E.
    subst l. reflexivity.
  - apply (f_equal (@rev A)) in E. rewrite rev_involutive in E.
    subst l. simpl. rewrite removelast_last, rev_involutive. reflexivity.
Qed.

(** The specification's normalization does what the walk does. *)
Lemma normalize_absolute_walk (segments stack : list str) :
  fold_left normalize_absolute segments stack
  = realpath_walk (rev stack) segments.
Proof.
  revert stack; induction segments as [|seg segments IH]; intros stack.
  - simpl. rewrite rev_involutive. reflexivity.
  - cbn [fold_left realpath_walk]. rewrite IH. unfold normalize_absolute.
    destruct (str_eqb seg [] || str_eqb seg (lit ".")); [reflexivity|].
    destruct (str_eqb seg (lit "..")).
    + rewrite rev_removelast. reflexivity.
    + rewrite rev_unit. reflexivity.
Qed.

Lemma normalize_absolute_text (s : str) :
  is_absolute (Path s) = true ->
  normalize s = {| root := [slash]; parts := realpath_walk [] (split slash s) |}.
Proof.
  rewrite is_absolute_Path. unfold normalize.
  destruct s as [|c rest]; [discriminate|]. intros ->.
  rewrite normalize_absolute_walk. reflexivity.
Qed.

(** [p.resolve()] of a parsed absolute text is the normalization of the
    text. *)
Lemma resolve_Path (fs : filesystem) (s : str) :
  is_absolute (Path s) = true -> resolve fs (Path s) = normalize s.
Proof.
  intros Habs. rewrite (normalize_absolute_text _ Habs).
  unfold resolve. rewrite Habs, parts_Path, realpath_walk_filter. reflexivity.
Qed.

Lemma joinpath_relative (a b : PurePath) :
  is_absolute b = false ->
  joinpath a b = {| root := root a; parts := parts a ++ parts b |}.
Proof. unfold joinpath. intros ->. reflexivity. Qed.

(** Joining parsed texts is parsing the joined text, up to the walk. *)
Lemma resolve_joinpath (fs : filesystem) (s : str) :
  is_absolute (Path s) = false ->
  resolve fs (joinpath (Path_cwd fs) (Path s))
  = normalize (join_text (getcwd fs) s).
Proof.
  intros Hrel.
  assert (Habs : is_absolute (Path (join_text (getcwd fs) s)) = true).
  { destruct (getcwd_starts_with_slash fs) as [rest E].
    rewrite is_absolute_Path. unfold join_text. rewrite E. reflexivity. }
  rewrite (normalize_absolute_text _ Habs).
  rewrite (joinpath_relative _ _ Hrel).
  unfold resolve, is_absolute at 1. cbn [root parts].
  fold (is_absolute (Path_cwd fs)). unfold Path_cwd.
  rewrite (getcwd_absolute fs), !parts_Path, <- filter_app.
  cbn [parts]. rewrite realpath_walk_filter.
  unfold join_text. simpl app. rewrite split_app. reflexivity.
Qed.

(** The walk leaves proper names only. *)
Lemma realpath_walk_proper (names path : list str) :
  forallb proper_name path = true ->
  forallb proper_name (realpath_walk path names) = true.
Proof.
  revert path; induction names as [|name names IH]; intros path Hpath.
  - simpl. rewrite forallb_forall in *. intros x Hx.
    apply Hpath, in_rev, Hx.
  - cbn [realpath_walk].
    destruct (str_eqb name []) eqn:E0; simpl; [auto|].
    destruct (str_eqb name (lit ".")) eqn:E1; simpl; [auto|].
    destruct (str_eqb name (lit "..")) eqn:E2.
    + apply IH. destruct path; simpl in *; [reflexivity|].
      apply andb_true_iff in Hpath. tauto.
    + apply IH. simpl. rewrite Hpath.
      unfold proper_name, keep_part. rewrite E0, E1, E2. reflexivity.
Qed.

(** On proper names the walk changes nothing. *)
Lemma realpath_walk_proper_names (names path : list str) :
  forallb proper_name names = true ->
  realpath_walk path names = rev path ++ names.
Proof.
  revert path; induction names as [|name names IH]; intros path Hnames.
  - simpl. rewrite app_nil_r. reflexivity.
  - simpl in Hnames. apply andb_true_iff in Hnames as [Hname Hnames].
    unfold proper_name, keep_part in Hname.
    cbn [realpath_walk].
    destruct (str_eqb name []); [discriminate|].
    destruct (str_eqb name (lit ".")); [discriminate|].
    destruct (str_eqb name (lit "..")); [discriminate|].
    simpl. rewrite (IH _ Hnames). simpl. rewrite <- app_assoc. reflexivity.
Qed.

(** In a working directory whose text is already in normal form, what
    [resolve()] makes of [Path.cwd()] is [Path.cwd()]. *)
Lemma resolve_normal_cwd (fs : filesystem) :
  root (Path_cwd fs) = [slash] ->
  forallb proper_name (parts (Path_cwd fs)) = true ->
  resolve fs (Path_cwd fs) = Path_cwd fs.
Proof.
  intros Hroot Hparts. unfold resolve, Path_cwd in *.
  rewrite (getcwd_absolute fs), (realpath_walk_proper_names _ _ Hparts).
  destruct (Path (getcwd fs)) as [r ps]. simpl in *. subst r. reflexivity.
Qed.

Lemma resolve_input_path_relative (fs : filesystem) (s : str) :
  is_absolute (Path s) = false ->
  resolve_input_path fs s = normalize (join_text (getcwd fs) s).
Proof.
  intros Hrel. unfold resolve_input_path. rewrite Hrel. simpl.
  apply resolve_joinpath, Hrel.
Qed.

Lemma resolve_input_path_absolute (fs : filesystem) (s : str) :
  is_absolute (Path s) = true -> resolve_input_path fs s = Path s.
Proof. intros Habs. unfold resolve_input_path. rewrite Habs. reflexivity. Qed.

End PathFacts.

(* ===================================================================== *)
(** * The command-line driver *)
(* ===================================================================== *)

Section MainFacts.

Lemma appends_call {A} (ev : event) (r : result A) : appends (call ev r).
Proof. intros trace. reflexivity. Qed.

Lemma appends_pure {A} (r : result A) : appends (pure r).
Proof. intros trace. unfold pure, outcome, events. simpl. rewrite app_nil_r. reflexivity. Qed.

Lemma appends_ret {A} (a : A) : appends (io_ret a).
Proof. intros trace. unfold io_ret, outcome, events. simpl. rewrite app_nil_r. reflexivity. Qed.

Lemma io_bind_run {A B} (c : io A) (k : A -> io B) (trace : list event) :
  appends c -> (forall a, appends (k a)) ->
  io_bind c k trace
  = match outcome c with
    | Ok a => (outcome (k a), trace ++ events c ++ events (k a))
    | Raise e => (Raise e, trace ++ events c)
    end.
Proof.
  intros Hc Hk. unfold io_bind. rewrite (Hc trace).
  destruct (outcome c) as [a|e]; [|reflexivity].
  rewrite (Hk a). rewrite app_assoc. reflexivity.
Qed.

Lemma appends_bind {A B} (c : io A) (k : A -> io B) :
  appends c -> (forall a, appends (k a)) -> appends (io_bind c k).
Proof.
  intros Hc Hk trace. unfold outcome at 1, events at 1.
  rewrite !(io_bind_run c k) by assumption.
  destruct (outcome c); reflexivity.
Qed.

Lemma outcome_bind {A B} (c : io A) (k : A -> io B) :
  appends c -> (forall a, appends (k a)) ->
  outcome (io_bind c k) = bind (outcome c) (fun a => outcome (k a)).
Proof.
  intros Hc Hk. unfold outcome at 1. rewrite io_bind_run by assumption.
  destruct (outcome c); reflexivity.
Qed.

Lemma events_bind {A B} (c : io A) (k : A -> io B) :
  appends c -> (forall a, appends (k a)) ->
  events (io_bind c k)
  = events c ++ match outcome c with
                | Ok a => events (k a)
                | Raise _ => []
                end.
Proof.
  intros Hc Hk. unfold events at 1. rewrite io_bind_run by assumption.
  destruct (outcome c); simpl; [reflexivity | rewrite app_nil_r; reflexivity].
Qed.

Create HintDb io.
Local Hint Resolve appends_call appends_pure appends_ret : io.

Lemma appends_run_ocr (w : world) (args : Namespace) (img_path : PurePath) :
  appends (run_ocr w args img_path).
Proof.
  unfold run_ocr. repeat (apply appends_bind; [auto with io | intros ?]).
  auto with io.
Qed.

Lemma appends_write_json_out (w : world) (args : Namespace) (exported : pyval) :
  appends (write_json_out w args exported).
Proof.
  unfold write_json_out. destruct (truthy (PStr (json_out args))); [|auto with io].
  apply appends_bind; intros; auto with io.
Qed.

Lemma appends_print_text (w : world) (args : Namespace) (exported : pyval) :
  appends (print_text w args exported).
Proof.
  unfold print_text. destruct (negb (no_text args)); [|auto with io].
  apply appends_bind; intros; auto with io.
Qed.

Local Hint Resolve appends_run_ocr appends_write_json_out appends_print_text : io.

Lemma appends_try_body (w : world) (args : Namespace) (img_path : PurePath) :
  appends (try_body w args img_path).
Proof.
  unfold try_body. repeat (apply appends_bind; [auto with io | intros ?]).
  auto with io.
Qed.


Lemma events_try_body (w : world) (args : Namespace) (img_path : PurePath) :
  events (try_body w args img_path)
  = events (run_ocr w args img_path)
    ++ match outcome (run_ocr w args img_path) with
       | Ok exported =>
           events (write_json_out w args exported)
           ++ match outcome (write_json_out w args exported) with
              | Ok _ => events (print_text w args exported)
              | Raise _ => []
              end
       | Raise _ => []
       end.
Proof.
  unfold try_body.
  rewrite events_bind; [|auto with io|].
  - destruct (outcome (run_ocr w args img_path)) as [exported|e]; [|reflexivity].
    rewrite events_bind; auto with io.
  - intros exported. apply appends_bind; intros; auto with io.
Qed.

(** Every event of the OCR stage is a call into docTR. *)
Lemma run_ocr_events (w : world) (args : Namespace) (img_path : PurePath) :
  forallb is_ocr_event (events (run_ocr w args img_path)) = true.
Proof.
  unfold events, run_ocr, io_bind, call. simpl.
  destruct (from_images _ _); [|reflexivity]. simpl.
  destruct (ocr_predictor _ _ _ _); [|reflexivity]. simpl.
  destruct (call_model _ _ _); reflexivity.
Qed.

Lemma write_json_out_skipped (w : world) (args : Namespace) (exported : pyval) :
  json_out args = [] -> write_json_out w args exported = io_ret tt.
Proof. unfold write_json_out. intros ->. reflexivity. Qed.

Lemma print_text_events (w : world) (args : Namespace) (exported : pyval) :
  existsb is_write_event (events (print_text w args exported)) = false.
Proof.
  unfold events, print_text, io_bind, call, pure, io_ret.
  destruct (negb (no_text args)); [|reflexivity].
  destruct (extract_text_from_doctr_export exported); reflexivity.
Qed.

Lemma ocr_events_not_writes (trace : list event) :
  forallb is_ocr_event trace = true -> existsb is_write_event trace = false.
Proof.
  induction trace as [|ev trace IH]; simpl; [reflexivity|].
  intros H. apply andb_true_iff in H as [Hev Htrace].
  rewrite (IH Htrace). destruct ev; try discriminate; reflexivity.
Qed.

Lemma try_body_no_write (w : world) (args : Namespace) (img_path : PurePath) :
  json_out args = [] ->
  existsb is_write_event (events (try_body w args img_path)) = false.
Proof.
  intros Hjson. rewrite events_try_body, existsb_app.
  rewrite (ocr_events_not_writes _ (run_ocr_events w args img_path)). simpl.
  destruct (outcome (run_ocr w args img_path)) as [exported|e]; [|reflexivity].
  rewrite (write_json_out_skipped _ _ _ Hjson). simpl.
  apply print_text_events.
Qed.

(** What [main] does once the order of its checks is followed. *)
Lemma main_invalid (w : world) (argv : command_line) :
  let img_path := resolve_input_path (fs w) (arg_image_path argv) in
  valid_input w img_path = false ->
  main w argv
  = (2%Z,
     [Stderr ((if path_exists (fs w) img_path
               then lit "ERROR: Not a file: "
               else lit "ERROR: File not found: ") ++ path_str img_path)]).
Proof.
  intros img_path. unfold valid_input, main. simpl. fold img_path.
  destruct (path_exists (fs w) img_path); simpl; [|reflexivity].
  intros ->. reflexivity.
Qed.

Lemma main_valid (w : world) (argv : command_line) :
  let args := parse_args argv in
  let img_path := resolve_input_path (fs w) (image_path args) in
  valid_input w img_path = true ->
  main w argv
  = match outcome (try_body w args img_path) with
    | Ok _ => (0%Z, events (try_body w args img_path))
    | Raise e =>
        (1%Z,
         events (try_body w args img_path)
         ++ [Stderr (lit "ERROR: OCR failed: " ++ exn_message e)])
    end.
Proof.
  intros args img_path. unfold valid_input, main. fold args. fold img_path.
  intros H. apply andb_true_iff in H as [-> ->]. simpl.
  unfold outcome, events.
  destruct (try_body w args img_path []) as [[v|e] trace]; reflexivity.
Qed.

End MainFacts.

(* ===================================================================== *)
(** * Runs on the sample inputs *)
(* ===================================================================== *)

Section Runs.

Import Samples.

Example no_pages :
  extract_text_from_doctr_export (export_of []) = Ok []
  /\ extract_text_from_doctr_export (PDict []) = Ok [].
Proof. split; reflexivity. Qed.

Example hello_world_text :
  extract_text_from_doctr_export hello_world = Ok (lit "Hello World").
Proof. reflexivity. Qed.

Example two_pages_text :
  extract_text_from_doctr_export two_pages
  = Ok (lit "A B" ++ newline ++ newline ++ lit "C").
Proof. reflexivity. Qed.

(** The page without text still separates its neighbours: two empty
    entries between x and y. *)
Example sparse_entries :
  collect_output_lines sparse = Ok [lit "x"; []; []; lit "y"].
Proof. reflexivity. Qed.

(** Outside the data model the flattener raises: a page that is a list, a
    value that is a number. *)
Example page_not_a_dict :
  extract_text_from_doctr_export (export_of [PList []])
  = Raise (AttributeError TList (lit "get")).
Proof. reflexivity. Qed.

Example value_not_a_string :
  extract_text_from_doctr_export
    (export_of [page [block [line [PDict [(lit "value", PInt 5)]]]]])
  = Raise (JoinItem 0 TInt).
Proof. reflexivity. Qed.

Example strip_unicode_space :
  strip ([12288; 10] ++ lit "a b" ++ [160; 32])%N = lit "a b".
Proof. reflexivity. Qed.

Example paths :
  path_str (Path (lit "//srv/./x//y/")) = lit "//srv/x/y"
  /\ path_str (Path (lit "///srv")) = lit "/srv"
  /\ path_str (Path []) = lit "."
  /\ path_str (resolve_input_path home (lit "images/a.jpg"))
     = lit "/home/user/images/a.jpg"
  /\ path_str (resolve_input_path home (lit "../../../x")) = lit "/x"
  /\ path_str (parent (Path (lit "/data/out.json"))) = lit "/data".
Proof. repeat split; reflexivity. Qed.

Example run_scan :
  main (writable (stub_doctr two_pages)) scan
  = (0%Z,
     [LoadDocument (lit "/home/user/scan.png");
      BuildPredictor (lit "db_resnet50") (lit "crnn_vgg16_bn") true;
      RunModel; ExportResult;
      Stdout (lit "A B" ++ newline ++ newline ++ lit "C")]).
Proof. reflexivity. Qed.

Example run_missing :
  main (writable (stub_doctr two_pages)) missing
  = (2%Z, [Stderr (lit "ERROR: File not found: /home/user/missing.png")]).
Proof. reflexivity. Qed.

Example run_directory :
  main (writable (stub_doctr two_pages)) directory
  = (2%Z, [Stderr (lit "ERROR: Not a file: /home/user/out")]).
Proof. reflexivity. Qed.

Example run_read_only :
  main (read_only (stub_doctr hello_world)) scan_to_json
  = (1%Z,
     [LoadDocument (lit "/home/user/scan.png");
      BuildPredictor (lit "db_resnet50") (lit "crnn_vgg16_bn") true;
      RunModel; ExportResult;
      Mkdir (Path (lit "/data"));
      Stderr (lit "ERROR: OCR failed: [Errno 13] Permission denied: '/data'")]).
Proof. reflexivity. Qed.

End Runs.

(* ===================================================================== *)
(** * The export flattener: claims *)
(* ===================================================================== *)

Section FlattenerClaims.

Import Reference.

(** C1, as stated, fails on two pages: the reference definition that only
    collects the text lines of the pages gives [A B], [C] on consecutive
    lines, while the code puts an empty line between the two pages. *)
Lemma lines_only_reference_two_pages :
  is_export Samples.two_pages = true
  /\ extract_text_from_doctr_export Samples.two_pages
     = Ok (lit "A B" ++ newline ++ newline ++ lit "C")
  /\ flatten_lines_only Samples.two_pages = lit "A B" ++ newline ++ lit "C"
  /\ extract_text_from_doctr_export Samples.two_pages
     <> Ok (flatten_lines_only Samples.two_pages).
Proof.
  repeat split; try reflexivity.
  vm_compute. discriminate.
Qed.

(** C1, amended: for every OCR export, [extract_text_from_doctr_export]
    returns the text of the reference definition that, page by page,
    block by block and line by line, collects the non-empty values of the
    words, joins the values of a line with one space, keeps the line when
    at least one value was collected, appends one empty entry after each
    page but the last, joins the entries with a newline and strips the
    result. *)
Theorem extract_text_reference (exported : pyval) :
  is_export exported = true ->
  extract_text_from_doctr_export exported = Ok (flatten exported).
Proof. apply extract_text_wf. Qed.

Lemma extract_text_reference_witness :
  is_export Samples.two_pages = true
  /\ extract_text_from_doctr_export Samples.two_pages
     = Ok (flatten Samples.two_pages).
Proof.
  split; [reflexivity|].
  exact (extract_text_reference Samples.two_pages eq_refl).
Defined.

(** C6: on an export whose keys may be absent at any level the flattener
    never raises; it returns a text, the same text as on the export with
    every absent key written out with its empty default (an empty list,
    an empty value), and the same text as on the export without the
    words whose value is absent or empty: the step of the word loop
    leaves the collected values as they are on such a word, and appends
    the value of any other word. *)
Theorem extract_text_never_raises (exported : pyval) :
  is_export exported = true ->
  (exists text,
      extract_text_from_doctr_export exported = Ok text
      /\ extract_text_from_doctr_export (export_defaults exported) = Ok text
      /\ extract_text_from_doctr_export (export_with_text exported) = Ok text)
  /\ (forall w words,
         is_word w = true ->
         word_body w words
         = Ok (if has_text w then words ++ [PStr (word_value w)] else words)).
Proof.
  intros Hwf. split.
  - exists (flatten exported). repeat split.
    + apply extract_text_wf, Hwf.
    + destruct (export_defaults_ok exported Hwf) as [Hwf' <-].
      apply extract_text_wf, Hwf'.
    + destruct (export_with_text_ok exported Hwf) as [Hwf' <-].
      apply extract_text_wf, Hwf'.
  - intros w words Hw. apply word_body_wf, Hw.
Qed.

Lemma extract_text_never_raises_witness :
  is_export Samples.sparse = true
  /\ extract_text_from_doctr_export Samples.sparse
     = Ok (lit "x" ++ newline ++ newline ++ newline ++ lit "y")
  /\ word_body (PDict []) [PStr (lit "x")] = Ok [PStr (lit "x")]
  /\ word_body (Samples.word "") [PStr (lit "x")] = Ok [PStr (lit "x")]
  /\ (exists text,
         extract_text_from_doctr_export Samples.sparse = Ok text
         /\ extract_text_from_doctr_export (export_defaults Samples.sparse)
            = Ok text
         /\ extract_text_from_doctr_export (export_with_text Samples.sparse)
            = Ok text).
Proof.
  split; [reflexivity|]. split; [reflexivity|].
  pose proof (extract_text_never_raises Samples.sparse eq_refl) as [Htext Hword].
  split; [exact (Hword (PDict []) [PStr (lit "x")] eq_refl)|].
  split; [exact (Hword (Samples.word "") [PStr (lit "x")] eq_refl)|].
  exact Htext.
Defined.

(** C7: the body of the page loop appends the text entries of its page
    and then, when the page is not the last one, exactly one empty
    string, whether or not the page had text; no text entry is empty, so
    that the entries collected for n pages hold exactly n - 1 empty
    strings (none for no page), and the text returned is their join,
    stripped. *)
Theorem page_separators (exported : pyval) :
  is_export exported = true ->
  let pages := children (lit "pages") exported in
  (forall page_index page out,
      nth_error pages page_index = Some page ->
      page_body (List.length pages) (page_index, page) out
      = Ok (out ++ page_entries page
                ++ (if Nat.eqb (S page_index) (List.length pages) then []
                    else [[]]))
      /\ Forall (fun entry => entry <> []) (page_entries page))
  /\ exists output_lines,
      collect_output_lines exported = Ok output_lines
      /\ count_occ str_eq_dec output_lines [] = Nat.pred (List.length pages)
      /\ extract_text_from_doctr_export exported
         = Ok (strip (join newline output_lines)).
Proof.
  intros Hwf pages. split.
  - intros page_index page out Hnth. split; [|apply page_entries_nonempty].
    apply page_body_wf.
    apply holds_list_inv in Hwf as [_ Hitems].
    rewrite forallb_forall in Hitems.
    apply Hitems. eapply nth_error_In, Hnth.
  - exists (output_entries exported). repeat split.
    + apply collect_output_lines_wf, Hwf.
    + apply (count_separators (List.length pages) pages 0). reflexivity.
    + apply extract_text_wf, Hwf.
Qed.

Lemma page_separators_witness :
  is_export Samples.sparse = true
  /\ exists output_lines,
       collect_output_lines Samples.sparse = Ok output_lines
       /\ count_occ str_eq_dec output_lines [] = 2
       /\ extract_text_from_doctr_export Samples.sparse
          = Ok (strip (join newline output_lines)).
Proof.
  split; [reflexivity|].
  exact (proj2 (page_separators Samples.sparse eq_refl)).
Defined.

End FlattenerClaims.

Section JsonClaims.

Import Json.

(** The [json] module is a collaborator: [json_dump] writes a value as
    text or raises, [json_load] reads a text back or raises, and reading
    what was written gives the value the conversion tables describe. *)
Variable text : Type.
Variable json_dump : pyval -> result text.
Variable json_load : text -> result pyval.
Hypothesis json_load_dump :
  forall v t, json_dump v = Ok t -> json_load t = Ok (decoded v).

(** C8: when an export E is written as JSON and the text read back as
    E', the flattener returns on E' the text it returns on E (and raises
    on E' when it raises on E). *)
Theorem flatten_json_round_trip (E E' : pyval) (t : text) :
  json_dump E = Ok t ->
  json_load t = Ok E' ->
  returned (extract_text_from_doctr_export E')
  = returned (extract_text_from_doctr_export E).
Proof.
  intros Hdump Hload.
  rewrite (json_load_dump _ _ Hdump) in Hload.
  injection Hload as <-.
  rewrite extract_text_decoded.
  destruct (extract_text_from_doctr_export E); reflexivity.
Qed.

End JsonClaims.

Lemma flatten_json_round_trip_witness :
  Json.decoded Samples.two_pages <> Samples.two_pages
  /\ returned (extract_text_from_doctr_export (Json.decoded Samples.two_pages))
     = returned (extract_text_from_doctr_export Samples.two_pages).
Proof.
  split; [vm_compute; discriminate|].
  refine (flatten_json_round_trip pyval (fun v => Ok (Json.decoded v)) (fun t => Ok t)
            _ Samples.two_pages (Json.decoded Samples.two_pages)
            (Json.decoded Samples.two_pages) eq_refl eq_refl).
  intros v t H. injection H as <-. reflexivity.
Defined.

(* ===================================================================== *)
(** * The path resolver: claims *)
(* ===================================================================== *)

Section PathClaims.

Variable fs : filesystem.
Variable sys : Posix.system.

(** C2, amended: for an input that denotes an absolute path,
    [resolve_input_path] returns [Path(p)] as the parser made it: the
    segments of the text that are neither empty nor [.], in order, with
    every [..] segment kept, under the root [splitroot] finds (two
    separators when the text starts with exactly two). No call of the
    operating system is made on this branch: the result is the same on
    a system with symbolic links and failing calls. *)
Theorem resolve_absolute (user_path : str) :
  is_absolute (Path user_path) = true ->
  resolve_input_path fs user_path = Path user_path
  /\ root (resolve_input_path fs user_path) = fst (splitroot user_path)
  /\ parts (resolve_input_path fs user_path)
     = filter keep_part (split slash user_path)
  /\ Posix.resolve_input_path sys user_path = Ok (Path user_path).
Proof.
  intros Habs. rewrite (resolve_input_path_absolute fs _ Habs).
  repeat split.
  - unfold Path. destruct (splitroot user_path). reflexivity.
  - apply parts_Path.
  - unfold Posix.resolve_input_path. rewrite Habs. reflexivity.
Qed.

(** C9: for the empty string [resolve_input_path] returns the working
    directory, normalized: the result is what [resolve()] makes of
    [Path.cwd()] and what [normalize] makes of its text, it is absolute,
    and none of its segments is empty, [.] or [..]. *)
Theorem resolve_empty :
  resolve_input_path fs [] = resolve fs (Path_cwd fs)
  /\ resolve_input_path fs [] = normalize (getcwd fs)
  /\ is_absolute (resolve_input_path fs []) = true
  /\ forallb proper_name (parts (resolve_input_path fs [])) = true.
Proof.
  assert (E : resolve_input_path fs [] = resolve fs (Path_cwd fs)).
  { unfold resolve_input_path, resolve. simpl.
    unfold joinpath. simpl. rewrite app_nil_r.
    unfold Path_cwd. rewrite (getcwd_absolute fs).
    unfold is_absolute at 1. simpl.
    fold (is_absolute (Path (getcwd fs))). rewrite (getcwd_absolute fs).
    reflexivity. }
  rewrite E. repeat split.
  - apply resolve_Path, getcwd_absolute.
  - unfold resolve. simpl. apply realpath_walk_proper. reflexivity.
Qed.

End PathClaims.

(** C2, as stated, fails on a path with a [..] segment: the code returns
    /a/../b as it is, and its normalization is /b. *)
Lemma absolute_dotdot_kept :
  is_absolute (Path (lit "/a/../b")) = true
  /\ path_str (resolve_input_path Samples.home (lit "/a/../b")) = lit "/a/../b"
  /\ path_str (normalize (lit "/a/../b")) = lit "/b"
  /\ resolve_input_path Samples.home (lit "/a/../b") <> normalize (lit "/a/../b").
Proof.
  repeat split; try reflexivity.
  vm_compute. discriminate.
Qed.

Lemma resolve_absolute_witness :
  is_absolute (Path (lit "/srv//scans/./a.png")) = true
  /\ path_str (resolve_input_path Samples.home (lit "/srv//scans/./a.png"))
     = lit "/srv/scans/a.png"
  /\ Posix.resolve_input_path
       (Samples.linked (Samples.writable (Samples.stub_doctr Samples.hello_world)))
       (lit "/srv//scans/./a.png")
     = Ok (Path (lit "/srv/scans/a.png")).
Proof.
  split; [reflexivity|].
  destruct (resolve_absolute Samples.home
              (Samples.linked (Samples.writable (Samples.stub_doctr Samples.hello_world)))
              (lit "/srv//scans/./a.png") eq_refl) as [Hpath [_ [_ Hposix]]].
  split; [rewrite Hpath; reflexivity | exact Hposix].
Defined.

(* ===================================================================== *)
(** * The command-line driver: claims *)
(* ===================================================================== *)

Section MainClaims.

Variable w : world.
Variable argv : command_line.

(** C10: with [--json-out] given the empty string [main] returns what it
    returns, and does what it does, without the option: in particular it
    makes no directory and writes no file. *)
Theorem empty_json_out :
  main w (with_json_out argv (Some [])) = main w (with_json_out argv None)
  /\ existsb is_write_event (snd (main w (with_json_out argv (Some [])))) = false.
Proof.
  split; [reflexivity|].
  set (given := with_json_out argv (Some [])).
  destruct (valid_input w (resolve_input_path (fs w) (arg_image_path given)))
    eqn:Hvalid.
  - rewrite (main_valid w given Hvalid).
    pose proof (try_body_no_write w (parse_args given)
                  (resolve_input_path (fs w) (image_path (parse_args given)))
                  eq_refl) as Hquiet.
    destruct (outcome (try_body w (parse_args given)
                         (resolve_input_path (fs w) (image_path (parse_args given)))));
      cbn [snd]; [exact Hquiet|].
    rewrite existsb_app, Hquiet. reflexivity.
  - rewrite (main_invalid w given Hvalid). reflexivity.
Qed.

End MainClaims.

(* ===================================================================== *)
(** * The flattener on any value *)
(* ===================================================================== *)

Section AcceptedFacts.

Import Shape.

Lemma for_each_settles {A S} (ok : A -> bool) (body : A -> S -> result S)
      (xs : list A) :
  settles ok body ->
  if forallb ok xs then forall s, exists s', for_each xs body s = Ok s'
  else forall s, exists e, for_each xs body s = Raise e.
Proof.
  intros Hbody. induction xs as [|x xs IH]; simpl.
  - intros s. eauto.
  - pose proof (Hbody x) as Hx. destruct (ok x); simpl.
    + destruct (forallb ok xs); intros s; destruct (Hx s) as [s' ->]; simpl; apply IH.
    + intros s. destruct (Hx s) as [e ->]. simpl. eauto.
Qed.

(** A string or a dict that is not empty yields strings, which no level
    accepts. *)
Lemma sequence_accepted_iter (item_ok : pyval -> bool) (v : pyval) :
  (forall s, item_ok (PStr s) = false) ->
  sequence_accepted item_ok v
  = match py_iter v with
    | Ok items => forallb item_ok items
    | Raise _ => false
    end.
Proof.
  intros Hstr. destruct v as [| | | |s|items|items|entries]; try reflexivity.
  - destruct s as [|c s]; [reflexivity|]. simpl. rewrite Hstr. reflexivity.
  - destruct entries as [|[k x] rest]; [reflexivity|]. simpl. rewrite Hstr. reflexivity.
Qed.

Lemma field_accepted_str (key : str) (field_ok : pyval -> bool) (s : str) :
  field_accepted key field_ok (PStr s) = false.
Proof. reflexivity. Qed.

(** The levels that loop over a field: when the loop over the field
    settles on [field_ok], the body settles on the dicts whose field is
    accepted. *)
Lemma field_loop_settles {S} (key : str) (item_ok : pyval -> bool)
      (loop : list pyval -> S -> result S) (v : pyval) :
  (forall s, item_ok (PStr s) = false) ->
  (forall items,
      if forallb item_ok items then forall s, exists s', loop items s = Ok s'
      else forall s, exists e, loop items s = Raise e) ->
  if field_accepted key (sequence_accepted item_ok) v
  then forall s, exists s',
      (x <- py_get v key (PList []) ;; items <- py_iter x ;; loop items s) = Ok s'
  else forall s, exists e,
      (x <- py_get v key (PList []) ;; items <- py_iter x ;; loop items s) = Raise e.
Proof.
  intros Hstr Hloop.
  destruct v as [| | | | | | |entries]; try (simpl; intros ?; eauto; fail).
  unfold field_accepted, py_get.
  destruct (dict_lookup entries key) as [x|].
  - rewrite (sequence_accepted_iter _ _ Hstr). simpl.
    destruct (py_iter x) as [items|e]; simpl; [apply Hloop | eauto].
  - simpl. apply (Hloop []).
Qed.

(** ** Words and lines *)

Lemma word_body_dict (w : pyval) (words : list pyval) :
  is_dict w = true ->
  word_body w words
  = Ok (if truthy (value_of w) then words ++ [value_of w] else words).
Proof. destruct w; try discriminate. reflexivity. Qed.

Lemma word_body_not_dict (w : pyval) (words : list pyval) :
  is_dict w = false -> exists e, word_body w words = Raise e.
Proof.
  destruct w; intros H; try discriminate H; unfold word_body; simpl; eauto.
Qed.

Lemma word_body_settles : settles is_dict word_body.
Proof.
  intros w. destruct (is_dict w) eqn:E; intros words.
  - rewrite (word_body_dict _ _ E). eauto.
  - apply word_body_not_dict, E.
Qed.

Lemma words_loop_dicts (items : list pyval) :
  forallb is_dict items = true ->
  forall words,
    for_each items word_body words
    = Ok (words ++ filter truthy (map value_of items)).
Proof.
  induction items as [|w items IH]; simpl; intros Hdicts words.
  - rewrite app_nil_r. reflexivity.
  - apply andb_true_iff in Hdicts as [Hw Hitems].
    rewrite (word_body_dict _ _ Hw). simpl. rewrite (IH Hitems).
    destruct (truthy (value_of w)); [|reflexivity].
    rewrite <- app_assoc. reflexivity.
Qed.

Lemma as_strs_settles (items : list pyval) (index : nat) :
  if forallb is_str items then exists ss, as_strs index items = Ok ss
  else exists e, as_strs index items = Raise e.
Proof.
  revert index; induction items as [|v items IH]; intros index; simpl; [eauto|].
  destruct v; simpl; eauto.
  specialize (IH (S index)).
  destruct (forallb is_str items); destruct IH as [r ->]; simpl; eauto.
Qed.

Lemma word_accepted_dict (w : pyval) :
  word_accepted w = is_dict w && value_accepted (value_of w).
Proof.
  destruct w; try reflexivity.
  unfold word_accepted, field_accepted, value_of. simpl.
  destruct (dict_lookup entries (lit "value")); reflexivity.
Qed.

Lemma words_accepted_values (items : list pyval) :
  forallb is_dict items = true ->
  forallb word_accepted items
  = forallb is_str (filter truthy (map value_of items)).
Proof.
  induction items as [|w items IH]; simpl; [reflexivity|].
  intros H. apply andb_true_iff in H as [Hw Hitems].
  rewrite (IH Hitems), word_accepted_dict, Hw. simpl.
  unfold value_accepted.
  destruct (truthy (value_of w)); simpl; [|reflexivity].
  destruct (value_of w); reflexivity.
Qed.

Lemma words_not_accepted (items : list pyval) :
  forallb is_dict items = false -> forallb word_accepted items = false.
Proof.
  induction items as [|w items IH]; simpl; [discriminate|].
  rewrite word_accepted_dict.
  destruct (is_dict w); simpl; [|reflexivity].
  intros H. rewrite (IH H). apply andb_false_r.
Qed.

Lemma line_loop_settles (items : list pyval) :
  if forallb word_accepted items
  then forall out, exists out', line_loop items out = Ok out'
  else forall out, exists e, line_loop items out = Raise e.
Proof.
  unfold line_loop.
  destruct (forallb is_dict items) eqn:Hdicts.
  - rewrite (words_accepted_values _ Hdicts), (words_loop_dicts _ Hdicts).
    simpl.
    pose proof (as_strs_settles (filter truthy (map value_of items)) 0) as Hjoin.
    destruct (filter truthy (map value_of items)) as [|v vs] eqn:E;
      [simpl; eauto|].
    unfold str_join.
    destruct (forallb is_str (v :: vs)); destruct Hjoin as [r ->];
      intros out; simpl; eauto.
  - rewrite (words_not_accepted _ Hdicts).
    pose proof (for_each_settles is_dict word_body items word_body_settles) as H.
    rewrite Hdicts in H. intros out. destruct (H []) as [e ->]. simpl. eauto.
Qed.

Lemma line_body_settles : settles line_accepted line_body.
Proof.
  intros line.
  apply (field_loop_settles (lit "words") word_accepted line_loop line
           (field_accepted_str _ _) line_loop_settles).
Qed.

Lemma block_body_settles : settles block_accepted block_body.
Proof.
  intros block.
  apply (field_loop_settles (lit "lines") line_accepted
           (fun items => for_each items line_body) block
           (field_accepted_str _ _)).
  intros items. apply for_each_settles, line_body_settles.
Qed.

Lemma page_body_settles (len_pages : nat) :
  settles (fun entry : nat * pyval => page_accepted (snd entry))
          (page_body len_pages).
Proof.
  intros [page_index page]. simpl.
  pose proof (field_loop_settles (lit "blocks") block_accepted
                (fun items => for_each items block_body) page
                (field_accepted_str _ _)
                (fun items => for_each_settles _ _ items block_body_settles)) as H.
  unfold page_accepted, page_body.
  destruct (field_accepted (lit "blocks") (sequence_accepted block_accepted) page);
    intros out; specialize (H out).
  - destruct (py_get page (lit "blocks") (PList [])) as [bs|e]; simpl in *;
      [|destruct H; discriminate].
    destruct (py_iter bs) as [items|e]; simpl in *; [|destruct H; discriminate].
    destruct H as [out' ->]. simpl. destruct (negb _); eauto.
  - destruct (py_get page (lit "blocks") (PList [])) as [bs|e]; simpl in *;
      [|eauto].
    destruct (py_iter bs) as [items|e]; simpl in *; [|eauto].
    destruct H as [e ->]. simpl. eauto.
Qed.

Lemma forallb_enumerate (ok : pyval -> bool) (items : list pyval) (start : nat) :
  forallb (fun entry : nat * pyval => ok (snd entry))
          (combine (seq start (List.length items)) items)
  = forallb ok items.
Proof.
  revert start; induction items as [|x items IH]; intros start; simpl;
    [reflexivity|].
  rewrite IH. reflexivity.
Qed.

Lemma pages_loop_settles (items : list pyval) :
  if forallb page_accepted items
  then forall _ : list str, exists lines,
      for_each (enumerate items) (page_body (List.length items)) [] = Ok lines
  else forall _ : list str, exists e,
      for_each (enumerate items) (page_body (List.length items)) [] = Raise e.
Proof.
  pose proof (for_each_settles _ _ (enumerate items)
                (page_body_settles (List.length items))) as Hloop.
  unfold enumerate in *. rewrite forallb_enumerate in Hloop.
  destruct (forallb page_accepted items); intros _; apply Hloop.
Qed.

Lemma collect_output_lines_settles (exported : pyval) :
  if export_accepted exported
  then exists lines, collect_output_lines exported = Ok lines
  else exists e, collect_output_lines exported = Raise e.
Proof.
  pose proof (field_loop_settles (lit "pages") page_accepted
                (fun items (_ : list str) =>
                   for_each (enumerate items) (page_body (List.length items)) [])
                exported (field_accepted_str _ _) pages_loop_settles) as H.
  unfold export_accepted, collect_output_lines.
  destruct (field_accepted (lit "pages") (sequence_accepted page_accepted) exported);
    apply (H []).
Qed.

End AcceptedFacts.

(* ===================================================================== *)
(** * The keys the flattener reads *)
(* ===================================================================== *)

Section KeepOnlyFacts.

Import Shape.

Lemma for_each_map_same {A S} (g : A -> A) (body : A -> S -> result S)
      (xs : list A) :
  (forall x s, body (g x) s = body x s) ->
  forall s, for_each (map g xs) body s = for_each xs body s.
Proof.
  intros Hbody. induction xs as [|x xs IH]; intros s; simpl; [reflexivity|].
  rewrite Hbody. destruct (body x s); simpl; auto.
Qed.

Lemma field_loop_keep_only {S} (key : str) (on_item : pyval -> pyval)
      (loop : list pyval -> S -> result S) (v : pyval) (s : S) :
  (forall items, loop (map on_item items) s = loop items s) ->
  (x <- py_get (keep_only key on_item v) key (PList []) ;;
   items <- py_iter x ;; loop items s)
  = (x <- py_get v key (PList []) ;; items <- py_iter x ;; loop items s).
Proof.
  intros Hloop.
  destruct v as [| | | | | | |entries]; try reflexivity.
  unfold keep_only, py_get.
  destruct (dict_lookup entries key) as [x|]; [|reflexivity].
  destruct x; simpl; rewrite str_eqb_refl; simpl; auto.
Qed.

Lemma word_body_only (w : pyval) (words : list pyval) :
  word_body (word_only w) words = word_body w words.
Proof.
  destruct w as [| | | | | | |entries]; try reflexivity.
  unfold word_only, keep_only, word_body, py_get.
  destruct (dict_lookup entries (lit "value")) as [x|]; [|reflexivity].
  destruct x; simpl; rewrite ?map_id; reflexivity.
Qed.

Lemma line_body_only (line : pyval) (out : list str) :
  line_body (line_only line) out = line_body line out.
Proof.
  apply (field_loop_keep_only (lit "words") word_only line_loop line out).
  intros items. unfold line_loop.
  rewrite (for_each_map_same word_only word_body items word_body_only).
  reflexivity.
Qed.

Lemma block_body_only (block : pyval) (out : list str) :
  block_body (block_only block) out = block_body block out.
Proof.
  apply (field_loop_keep_only (lit "lines") line_only
           (fun items => for_each items line_body) block out).
  intros items. apply for_each_map_same, line_body_only.
Qed.

Lemma page_body_only (len_pages : nat) (entry : nat * pyval) (out : list str) :
  page_body len_pages (fst entry, page_only (snd entry)) out
  = page_body len_pages entry out.
Proof.
  destruct entry as [page_index page]. simpl.
  apply (field_loop_keep_only (lit "blocks") block_only
           (fun items s =>
              output_lines <- for_each items block_body s ;;
              if negb (Z.eqb (Z.of_nat page_index) (Z.of_nat len_pages - 1))
              then Ok (output_lines ++ [[]])
              else Ok output_lines) page out).
  intros items.
  rewrite (for_each_map_same block_only block_body items block_body_only).
  reflexivity.
Qed.

Lemma collect_output_lines_only (exported : pyval) :
  collect_output_lines (export_only exported) = collect_output_lines exported.
Proof.
  apply (field_loop_keep_only (lit "pages") page_only
           (fun items (_ : list str) =>
              for_each (enumerate items) (page_body (List.length items)) [])
           exported []).
  intros items. unfold enumerate. rewrite enumerate_map, length_map.
  apply (for_each_map_same (fun entry => (fst entry, page_only (snd entry)))).
  apply page_body_only.
Qed.

End KeepOnlyFacts.

(* ===================================================================== *)
(** * Stripping and the collected entries *)
(* ===================================================================== *)

Section StripFacts.

Import Shape Reference.

Lemma lstrip_no_leading (s : str) : starts_with_space (lstrip s) = false.
Proof.
  induction s as [|c s IH]; simpl; [reflexivity|].
  destruct (isspace c) eqn:E; [exact IH|]. simpl. exact E.
Qed.

Lemma lstrip_keeps_last (l : str) (c : N) :
  isspace c = false -> exists x, lstrip (l ++ [c]) = x ++ [c].
Proof.
  intros Hc. induction l as [|d l IH]; simpl.
  - rewrite Hc. exists []. reflexivity.
  - destruct (isspace d); [exact IH|]. exists (d :: l). reflexivity.
Qed.

Lemma strip_stripped (s : str) : stripped (strip s) = true.
Proof.
  unfold stripped, strip, rstrip. rewrite rev_involutive, lstrip_no_leading.
  rewrite andb_true_r.
  pose proof (lstrip_no_leading s) as Hhead.
  destruct (lstrip s) as [|c u]; [reflexivity|].
  simpl in Hhead. simpl rev.
  destruct (lstrip_keeps_last (rev u) c Hhead) as [x ->].
  rewrite rev_unit. simpl. rewrite Hhead. reflexivity.
Qed.

Lemma lstrip_spaces (s : str) :
  Forall (fun c => isspace c = true) s -> lstrip s = [].
Proof.
  induction 1 as [|c s Hc _ IH]; simpl; [reflexivity|].
  rewrite Hc. exact IH.
Qed.

Lemma strip_spaces (s : str) :
  Forall (fun c => isspace c = true) s -> strip s = [].
Proof.
  intros H. unfold strip. rewrite (lstrip_spaces _ H). reflexivity.
Qed.

Lemma join_empty_entries (entries : list str) :
  Forall (fun s => s = []) entries ->
  Forall (fun c => isspace c = true) (join newline entries).
Proof.
  induction 1 as [|s entries Hs _ IH]; [constructor|].
  subst s. destruct entries as [|s' rest]; [constructor|].
  change (join newline ([] :: s' :: rest))
    with (newline ++ join newline (s' :: rest)).
  constructor; [reflexivity | exact IH].
Qed.

Lemma filter_nonempty_same (entries : list str) :
  Forall (fun s => s <> []) entries -> filter nonempty entries = entries.
Proof.
  induction 1 as [|s entries Hs _ IH]; simpl; [reflexivity|].
  destruct s; [congruence|]. simpl. rewrite IH. reflexivity.
Qed.

Lemma filter_nonempty_none (entries : list str) :
  filter nonempty entries = [] -> Forall (fun s => s = []) entries.
Proof.
  induction entries as [|s entries IH]; simpl; [constructor|].
  destruct s; simpl; [|discriminate]. intros H. constructor; auto.
Qed.

(** Without the separators the entries are the text lines of the pages,
    in order. *)
Lemma text_entries (len_pages : nat) (pages : list pyval) (start : nat) :
  filter nonempty
    (flat_map (fun entry : nat * pyval =>
                 page_entries (snd entry) ++ separator len_pages (fst entry))
              (combine (seq start (List.length pages)) pages))
  = flat_map page_entries pages.
Proof.
  revert start; induction pages as [|page pages IH]; intros start; simpl;
    [reflexivity|].
  rewrite !filter_app, IH.
  rewrite (filter_nonempty_same _ (page_entries_nonempty page)).
  unfold separator. destruct (Nat.eqb (S start) len_pages); simpl;
    rewrite app_nil_r; reflexivity.
Qed.

End StripFacts.

(* ===================================================================== *)
(** * Paths and their text *)
(* ===================================================================== *)

Section PathTextFacts.

Import Shape.

Lemma split_no_sep (sep : N) (s : str) :
  forallb (no_sep sep) (split sep s) = true.
Proof.
  induction s as [|c s IH]; simpl; [reflexivity|].
  destruct (N.eqb c sep) eqn:E; simpl; [exact IH|].
  destruct (split sep s) as [|field fields]; simpl in *.
  - unfold no_sep. simpl. rewrite N.eqb_sym, E. reflexivity.
  - apply andb_true_iff in IH as [Hfield Hfields]. rewrite Hfields.
    unfold no_sep in *. simpl. rewrite N.eqb_sym, E. simpl. rewrite Hfield.
    reflexivity.
Qed.

Lemma split_field (sep : N) (x : str) :
  no_sep sep x = true -> split sep x = [x].
Proof.
  unfold no_sep. induction x as [|c x IH]; simpl; [reflexivity|].
  rewrite negb_orb. intros H. apply andb_true_iff in H as [Hc Hx].
  rewrite N.eqb_sym. apply negb_true_iff in Hc. rewrite Hc, (IH Hx).
  reflexivity.
Qed.

(** Splitting what was joined gives the fields back. *)
Lemma split_join (sep : N) (x : str) (xs : list str) :
  forallb (no_sep sep) (x :: xs) = true ->
  split sep (join [sep] (x :: xs)) = x :: xs.
Proof.
  revert x; induction xs as [|y xs IH]; intros x H.
  - simpl in *. rewrite andb_true_r in H. apply split_field, H.
  - simpl in H. apply andb_true_iff in H as [Hx Hrest].
    change (join [sep] (x :: y :: xs)) with (x ++ sep :: join [sep] (y :: xs)).
    rewrite split_app, (split_field _ _ Hx), (IH y Hrest). reflexivity.
Qed.

Lemma Path_parsed (s : str) : path_parsed (Path s) = true.
Proof.
  unfold path_parsed. rewrite parts_Path. apply andb_true_iff. split.
  - unfold Path, splitroot.
    destruct s as [|c1 [|c2 [|c3 rest]]]; simpl;
      repeat match goal with
             | |- context [N.eqb ?c slash] => destruct (N.eqb c slash); simpl
             end; reflexivity.
  - apply forallb_forall. intros x Hx. apply filter_In in Hx as [Hin Hkeep].
    unfold part_parsed. rewrite Hkeep. simpl.
    pose proof (split_no_sep slash s) as H.
    rewrite forallb_forall in H. apply (H x Hin).
Qed.

Lemma filter_keep_parsed (ps : list str) :
  forallb part_parsed ps = true -> filter keep_part ps = ps.
Proof.
  induction ps as [|x ps IH]; simpl; [reflexivity|].
  intros H. apply andb_true_iff in H as [Hx Hps].
  unfold part_parsed in Hx. apply andb_true_iff in Hx as [-> _].
  rewrite (IH Hps). reflexivity.
Qed.

Lemma parsed_no_sep (ps : list str) :
  forallb part_parsed ps = true -> forallb (no_sep slash) ps = true.
Proof.
  intros H. apply forallb_forall. intros x Hx.
  rewrite forallb_forall in H. specialize (H x Hx).
  unfold part_parsed in H. apply andb_true_iff in H. tauto.
Qed.

(** The text of the parts starts with no separator. *)
Lemma join_parsed_head (ps : list str) :
  forallb part_parsed ps = true -> no_leading_sep (join [slash] ps) = true.
Proof.
  destruct ps as [|x xs]; [reflexivity|].
  cbn [forallb]. intros H. apply andb_true_iff in H as [H _].
  unfold part_parsed, keep_part in H.
  destruct x as [|c x]; [discriminate|].
  apply andb_true_iff in H as [_ H]. cbn [existsb] in H.
  rewrite negb_orb in H. apply andb_true_iff in H as [Hc _].
  rewrite N.eqb_sym in Hc.
  destruct xs; cbn [join app no_leading_sep]; exact Hc.
Qed.

Lemma join_parsed_parts (ps : list str) :
  forallb part_parsed ps = true ->
  filter keep_part (split slash (join [slash] ps)) = ps.
Proof.
  intros H. destruct ps as [|x xs]; [reflexivity|].
  rewrite split_join by (apply parsed_no_sep, H).
  apply filter_keep_parsed, H.
Qed.

Lemma Path_rooted (r body : str) :
  root_parsed r = true -> no_leading_sep body = true ->
  Path (r ++ body)
  = {| root := r; parts := filter keep_part (split slash body) |}.
Proof.
  unfold root_parsed. intros Hroot Hbody.
  destruct (str_eqb r []) eqn:E0; [apply str_eqb_eq in E0; subst r|].
  - cbn [app]. unfold Path, splitroot.
    destruct body as [|c rest]; [reflexivity|].
    cbn [no_leading_sep] in Hbody. rewrite Hbody. reflexivity.
  - destruct (str_eqb r [slash]) eqn:E1; [apply str_eqb_eq in E1; subst r|].
    + cbn [app]. unfold Path, splitroot. rewrite N.eqb_refl. cbn [negb].
      destruct body as [|c rest]; [reflexivity|].
      cbn [no_leading_sep] in Hbody. rewrite Hbody. reflexivity.
    + cbn [orb] in Hroot. apply str_eqb_eq in Hroot. subst r.
      cbn [app]. unfold Path, splitroot. rewrite N.eqb_refl. cbn [negb].
      destruct body as [|c rest]; [reflexivity|].
      cbn [no_leading_sep] in Hbody. apply negb_true_iff in Hbody.
      rewrite Hbody. reflexivity.
Qed.

(** Parsing the text of a parsed path gives the path back. *)
Lemma Path_path_str (p : PurePath) :
  path_parsed p = true -> Path (path_str p) = p.
Proof.
  destruct p as [r ps]. unfold path_parsed. cbn [root parts].
  intros H. apply andb_true_iff in H as [Hroot Hparts].
  assert (E : Path (r ++ join [slash] ps) = {| root := r; parts := ps |}).
  { rewrite (Path_rooted _ _ Hroot (join_parsed_head _ Hparts)).
    rewrite (join_parsed_parts _ Hparts). reflexivity. }
  unfold path_str. cbn [root parts].
  destruct r as [|c r]; [|exact E].
  destruct ps as [|x xs]; [reflexivity | exact E].
Qed.

Lemma realpath_walk_forallb (ok : str -> bool) (names path : list str) :
  forallb ok path = true -> forallb ok names = true ->
  forallb ok (realpath_walk path names) = true.
Proof.
  revert path; induction names as [|name names IH]; intros path Hpath Hnames.
  - simpl. rewrite forallb_forall in *. intros x Hx. apply Hpath, in_rev, Hx.
  - simpl in Hnames. apply andb_true_iff in Hnames as [Hname Hnames].
    cbn [realpath_walk].
    destruct (str_eqb name [] || str_eqb name (lit ".")); [auto|].
    destruct (str_eqb name (lit "..")).
    + apply IH; [|exact Hnames]. destruct path; simpl in *; [reflexivity|].
      apply andb_true_iff in Hpath. tauto.
    + apply IH; [|exact Hnames]. simpl. rewrite Hname, Hpath. reflexivity.
Qed.

Lemma resolve_parsed (fs : filesystem) (p : PurePath) :
  path_parsed p = true -> path_parsed (resolve fs p) = true.
Proof.
  unfold path_parsed, resolve. simpl. intros H.
  apply andb_true_iff in H as [_ Hparts].
  apply realpath_walk_forallb; [reflexivity|].
  destruct (is_absolute p); [exact Hparts|].
  unfold joinpath. destruct (is_absolute p); [exact Hparts|]. simpl.
  rewrite forallb_app, Hparts, andb_true_r.
  pose proof (Path_parsed (getcwd fs)) as Hcwd.
  unfold path_parsed in Hcwd. apply andb_true_iff in Hcwd. apply Hcwd.
Qed.

Lemma joinpath_parsed (a b : PurePath) :
  path_parsed a = true -> path_parsed b = true ->
  path_parsed (joinpath a b) = true.
Proof.
  unfold joinpath. destruct (is_absolute b); [auto|].
  unfold path_parsed. simpl. intros Ha Hb.
  apply andb_true_iff in Ha as [-> Ha]. apply andb_true_iff in Hb as [_ Hb].
  rewrite forallb_app, Ha, Hb. reflexivity.
Qed.

Lemma resolve_input_path_parsed (fs : filesystem) (s : str) :
  path_parsed (resolve_input_path fs s) = true.
Proof.
  unfold resolve_input_path.
  destruct (negb (is_absolute (Path s))); [|apply Path_parsed].
  apply resolve_parsed, joinpath_parsed; apply Path_parsed.
Qed.

Lemma resolve_input_path_is_absolute (fs : filesystem) (s : str) :
  is_absolute (resolve_input_path fs s) = true.
Proof.
  unfold resolve_input_path.
  destruct (is_absolute (Path s)) eqn:E; simpl; [exact E | reflexivity].
Qed.

End PathTextFacts.

(* ===================================================================== *)
(** * The runs of the driver, case by case *)
(* ===================================================================== *)

Section RunFacts.

Import Shape.

(** Every way a run can go: each check and each call, decided in turn. *)
Ltac run_cases w argv :=
  unfold main, valid_input, outcome, events, json_writes, ocr_calls, try_body,
    run_ocr, write_json_out, print_text, io_bind, call, pure, io_ret;
  set (args := parse_args argv);
  set (img_path := resolve_input_path (fs w) (image_path args));
  set (out_path := resolve_input_path (fs w) (json_out args));
  destruct (path_exists (fs w) img_path); cbn [negb andb];
  [destruct (is_file (fs w) img_path); cbn [negb andb]|];
  [destruct (from_images (doctr w) (path_str img_path)) as [doc|?];
   cbn [app fst snd];
   [destruct (ocr_predictor (doctr w) (det_arch args) (reco_arch args) true)
      as [model|?]; cbn [app fst snd];
    [destruct (call_model (doctr w) model doc) as [prediction|?];
     cbn [app fst snd];
     [destruct (export (doctr w) prediction) as [exported|?]; cbn [app fst snd];
      [destruct (truthy (PStr (json_out args)));
       [destruct (mkdir_parents w (parent out_path)) as [[]|?]; cbn [app fst snd];
        [destruct (write_json w out_path exported) as [[]|?] eqn:Hwrite;
         cbn [app fst snd]|]|];
       destruct (no_text args); cbn [negb];
       try (destruct (extract_text_from_doctr_export exported) as [text|?]
              eqn:Hflat;
            [destruct (print_stdout w text) as [[]|?]; cbn [app fst snd]|])
      |]|]|]|]|..].

(** X12: in every run the events come in the order of the stages: the
    calls into docTR, then the writing of the JSON file, then the text on
    standard output, then the report on standard error; no run goes back
    to an earlier stage. *)
Theorem main_stage_order (w : world) (argv : command_line) :
  in_stage_order 0 (snd (main w argv)) = true.
Proof. run_cases w argv; reflexivity. Qed.

(** X13: a run that returns 0 makes no [print(..., file=sys.stderr)]
    call, and a run that returns another code makes exactly one; the
    text of that call is one message, which can hold several lines when
    the path or the message of the exception does. *)
Theorem main_stderr_lines (w : world) (argv : command_line) :
  List.length (filter is_stderr (snd (main w argv)))
  = if Z.eqb (fst (main w argv)) 0 then 0 else 1.
Proof. run_cases w argv; reflexivity. Qed.

(** X14: [main] returns 2 exactly when one of the two checks of the input
    path fails, and it returns no other code than 0, 1 and 2. *)
Theorem main_exit_codes (w : world) (argv : command_line) :
  (fst (main w argv) = 2%Z
   <-> valid_input w (resolve_input_path (fs w) (image_path (parse_args argv)))
       = false)
  /\ (fst (main w argv) = 0%Z \/ fst (main w argv) = 1%Z
      \/ fst (main w argv) = 2%Z).
Proof.
  run_cases w argv; (split; [split; intros H; (reflexivity || discriminate H)|]);
    auto.
Qed.


(** X16: with [--no-text] nothing is printed on standard output and the
    export is not flattened: the run returns 0 as soon as the input path
    is valid, docTR returns an export and the writing of the JSON file
    does not raise, whatever the shape of the export. *)
Theorem main_no_text (w : world) (argv : command_line) :
  no_text (parse_args argv) = true ->
  existsb is_stdout (snd (main w argv)) = false
  /\ (fst (main w argv) = 0%Z
      <-> valid_input w (resolve_input_path (fs w) (image_path (parse_args argv)))
          = true
          /\ exists exported,
              outcome (run_ocr w (parse_args argv)
                         (resolve_input_path (fs w) (image_path (parse_args argv))))
              = Ok exported
              /\ outcome (write_json_out w (parse_args argv) exported) = Ok tt).
Proof.
  run_cases w argv; intros Hflag; try discriminate Hflag;
    (split; [reflexivity|]); split.
  all: try (intros H; discriminate H).
  all: try (intros [Hvalid _]; discriminate Hvalid).
  all: try (intros [_ [x [Hocr _]]]; discriminate Hocr).
  all: try (intros [_ [x [Hocr Hjson]]]; injection Hocr as <-;
            rewrite ?Hwrite in Hjson; discriminate Hjson).
  all: try (intros _; reflexivity).
  all: intros _; split; [reflexivity|]; eexists; split;
    [reflexivity | rewrite ?Hwrite; reflexivity].
Qed.


End RunFacts.


Lemma main_no_text_witness :
  no_text (parse_args Samples.scan_no_text) = true
  /\ extract_text_from_doctr_export Samples.malformed = Raise (JoinItem 0 TInt)
  /\ fst (main (Samples.writable (Samples.stub_doctr Samples.malformed))
               Samples.scan_no_text) = 0%Z.
Proof.
  split; [reflexivity|]. split; [reflexivity|].
  apply (proj2 (main_no_text (Samples.writable (Samples.stub_doctr Samples.malformed))
                  Samples.scan_no_text eq_refl)).
  split; [reflexivity|]. exists Samples.malformed. split; reflexivity.
Defined.


(* ===================================================================== *)
(** * Symbolic links and failing calls *)
(* ===================================================================== *)

Section PosixFacts.

Import Shape.

Lemma joinrealpath_walk (depth : nat) (readlink : list str -> option str)
      (path names : list str) (seen : Posix.table) :
  exists follow,
    Posix.joinrealpath depth readlink path names seen
    = Posix.walk follow readlink path names seen.
Proof. destruct depth; eexists; reflexivity. Qed.

(** Where the walk meets no link it is the walk over the text. *)
Lemma walk_link_free_resolved
      (follow : list str -> str -> Posix.table -> Posix.walked)
      (readlink : list str -> option str) (names path : list str)
      (seen : Posix.table) :
  Posix.walk_link_free readlink path names = true ->
  Posix.walk follow readlink path names seen
  = Posix.Resolved (realpath_walk (rev path) names) seen.
Proof.
  revert path; induction names as [|name names IH]; intros path.
  - simpl. rewrite rev_involutive. reflexivity.
  - cbn [Posix.walk_link_free Posix.walk realpath_walk].
    destruct (str_eqb name [] || str_eqb name (lit ".")); [apply IH|].
    destruct (str_eqb name (lit "..")).
    + intros H. rewrite (IH _ H), rev_removelast. reflexivity.
    + destruct (readlink (path ++ [name])); [discriminate|].
      intros H. rewrite (IH _ H), rev_unit. reflexivity.
Qed.

Lemma link_below_app (readlink : list str -> option str) (names base : list str)
      (name : str) :
  Posix.link_below readlink base (names ++ [name])
  = Posix.link_below readlink base names
    || match readlink (base ++ names ++ [name]) with
       | Some _ => true
       | None => false
       end.
Proof.
  revert base; induction names as [|x names IH]; intros base; simpl.
  - destruct (readlink (base ++ [name])); reflexivity.
  - destruct (readlink (base ++ [x])); [reflexivity|].
    rewrite IH, <- app_assoc. reflexivity.
Qed.

Lemma link_below_removelast (readlink : list str -> option str)
      (names : list str) :
  Posix.link_below readlink [] names = false ->
  Posix.link_below readlink [] (removelast names) = false.
Proof.
  destruct names as [|x names] using rev_ind; [auto|].
  rewrite removelast_last, link_below_app. intros H.
  apply orb_false_iff in H. tauto.
Qed.

(** The path such a walk ends on has no link on it. *)
Lemma walk_link_free_below (readlink : list str -> option str)
      (names path : list str) :
  Posix.walk_link_free readlink path names = true ->
  Posix.link_below readlink [] path = false ->
  Posix.link_below readlink [] (realpath_walk (rev path) names) = false.
Proof.
  revert path; induction names as [|name names IH]; intros path.
  - simpl. rewrite rev_involutive. auto.
  - cbn [Posix.walk_link_free realpath_walk].
    destruct (str_eqb name [] || str_eqb name (lit ".")); [apply IH|].
    destruct (str_eqb name (lit "..")).
    + intros H Hpath. rewrite <- rev_removelast.
      apply IH; [exact H|]. apply link_below_removelast, Hpath.
    + destruct (readlink (path ++ [name])) eqn:E; [discriminate|].
      intros H Hpath. rewrite <- rev_unit. apply IH; [exact H|].
      rewrite link_below_app, Hpath. simpl. rewrite E. reflexivity.
Qed.

Lemma walk_link_free_none (readlink : list str -> option str)
      (names path : list str) :
  (forall key, readlink key = None) ->
  Posix.walk_link_free readlink path names = true.
Proof.
  intros Hnone. revert path; induction names as [|name names IH]; intros path;
    [reflexivity|].
  cbn [Posix.walk_link_free].
  destruct (str_eqb name [] || str_eqb name (lit ".")); [apply IH|].
  destruct (str_eqb name (lit "..")); [apply IH|].
  rewrite Hnone. apply IH.
Qed.

(** ** [normpath] on a text in normal form *)

Lemma initial_slashes_rooted (s : str) :
  no_leading_sep s = true -> Posix.initial_slashes (slash :: s) = 1.
Proof.
  destruct s as [|c [|c' s]]; simpl; [reflexivity| |];
    intros H; apply negb_true_iff in H; rewrite H; reflexivity.
Qed.

Lemma normpath_steps_proper (initial : nat) (names comps : list str) :
  forallb proper_name names = true ->
  fold_left (Posix.normpath_step initial) names comps = comps ++ names.
Proof.
  revert comps; induction names as [|name names IH]; intros comps Hnames; simpl.
  - rewrite app_nil_r. reflexivity.
  - simpl in Hnames. apply andb_true_iff in Hnames as [Hname Hnames].
    rewrite (IH _ Hnames). unfold Posix.normpath_step.
    unfold proper_name, keep_part in Hname.
    destruct (str_eqb name []); [discriminate|].
    destruct (str_eqb name (lit ".")); [discriminate|].
    destruct (str_eqb name (lit "..")); [discriminate|].
    simpl. rewrite <- app_assoc. reflexivity.
Qed.

Lemma proper_parsed (names : list str) :
  forallb proper_name names = true -> forallb (no_sep slash) names = true ->
  forallb part_parsed names = true.
Proof.
  rewrite !forallb_forall. intros Hproper Hsep x Hx.
  specialize (Hproper x Hx). specialize (Hsep x Hx).
  unfold proper_name in Hproper. apply andb_true_iff in Hproper as [Hkeep _].
  unfold part_parsed. rewrite Hkeep. exact Hsep.
Qed.

Lemma normpath_text_of (names : list str) :
  forallb proper_name names = true -> forallb (no_sep slash) names = true ->
  Posix.normpath (Posix.text_of names) = Posix.text_of names.
Proof.
  intros Hproper Hsep. unfold Posix.normpath, Posix.text_of.
  rewrite (initial_slashes_rooted _ (join_parsed_head _ (proper_parsed _ Hproper Hsep))).
  cbn [split]. rewrite N.eqb_refl. cbn [fold_left].
  unfold Posix.normpath_step at 2. cbn [str_eqb orb].
  destruct names as [|x xs]; [reflexivity|].
  rewrite (split_join _ _ _ Hsep), (normpath_steps_proper _ _ _ Hproper).
  reflexivity.
Qed.

Lemma Path_text_of (names : list str) :
  forallb part_parsed names = true ->
  Path (Posix.text_of names) = {| root := [slash]; parts := names |}.
Proof.
  intros H. unfold Posix.text_of.
  change (slash :: join [slash] names) with ([slash] ++ join [slash] names).
  rewrite (Path_rooted [slash] _ eq_refl (join_parsed_head _ H)).
  rewrite (join_parsed_parts _ H). reflexivity.
Qed.

(** The names [realpath] walks are the parts of the path. *)
Lemma realpath_walk_names (q : PurePath) :
  is_absolute q = true -> path_parsed q = true ->
  realpath_walk [] (split slash (tl (path_str q))) = realpath_walk [] (parts q).
Proof.
  intros Habs Hparsed.
  assert (E : path_str q = slash :: tl (path_str q)).
  { destruct q as [r ps]. unfold is_absolute, path_parsed, root_parsed in *.
    cbn [root parts] in *. apply andb_true_iff in Hparsed as [Hroot _].
    unfold path_str. cbn [root parts].
    destruct (str_eqb r []) eqn:E0; [discriminate|].
    destruct (str_eqb r [slash]) eqn:E1.
    - apply str_eqb_eq in E1. subst r. reflexivity.
    - simpl in Hroot. apply str_eqb_eq in Hroot. subst r. reflexivity. }
  rewrite <- (Path_path_str q Hparsed) at 2.
  rewrite parts_Path, realpath_walk_filter, E.
  cbn [split]. rewrite N.eqb_refl. reflexivity.
Qed.

(** ** [resolve] where no link is met *)

Lemma resolve_link_free (sys : Posix.system) (q : PurePath) :
  is_absolute q = true -> path_parsed q = true ->
  Posix.meets_no_link sys q = true ->
  Posix.resolve sys q = Ok (resolve (fs (Posix.plain sys)) q).
Proof.
  intros Habs Hparsed Hfree. unfold Posix.meets_no_link in Hfree.
  set (names := split slash (tl (path_str q))) in *.
  set (path := realpath_walk [] names).
  assert (Hsep : forallb (no_sep slash) path = true).
  { apply realpath_walk_forallb; [reflexivity | apply split_no_sep]. }
  assert (Hproper : forallb proper_name path = true).
  { apply realpath_walk_proper. reflexivity. }
  assert (Hwalk : Posix.realpath sys (path_str q) = Ok (Posix.text_of path)).
  { unfold Posix.realpath. fold names.
    destruct (joinrealpath_walk (Posix.recursion_limit sys) (Posix.readlink sys)
                [] names []) as [follow ->].
    rewrite (walk_link_free_resolved _ _ _ _ _ Hfree). cbn [rev]. fold path.
    rewrite (normpath_text_of _ Hproper Hsep). reflexivity. }
  unfold Posix.resolve. rewrite Habs. cbn [bind]. rewrite Hwalk. cbn [bind].
  rewrite (Path_text_of _ (proper_parsed _ Hproper Hsep)).
  assert (E : resolve (fs (Posix.plain sys)) q = {| root := [slash]; parts := path |}).
  { unfold resolve. rewrite Habs. unfold path, names.
    rewrite (realpath_walk_names _ Habs Hparsed). reflexivity. }
  rewrite E.
  destruct (Posix.stat_failure_at sys {| root := [slash]; parts := path |})
    as [[|e]|] eqn:Hstat; try reflexivity.
  apply Posix.eloop_behind_link in Hstat. cbn [parts] in Hstat.
  pose proof (walk_link_free_below _ _ [] Hfree eq_refl) as Hbelow.
  cbn [rev] in Hbelow. fold path in Hbelow. congruence.
Qed.

Lemma cwd_joinpath (fs : filesystem) (s : str) :
  is_absolute (joinpath (Path_cwd fs) (Path s)) = true
  /\ path_parsed (joinpath (Path_cwd fs) (Path s)) = true.
Proof.
  split.
  - unfold joinpath. destruct (is_absolute (Path s)) eqn:E; [exact E|].
    apply (getcwd_absolute fs).
  - apply joinpath_parsed; apply Path_parsed.
Qed.

Lemma resolve_input_path_link_free (sys : Posix.system) (s : str) :
  is_absolute (Path s) = false ->
  Posix.getcwd_error sys = None ->
  Posix.meets_no_link sys
    (joinpath (Path_cwd (fs (Posix.plain sys))) (Path s)) = true ->
  Posix.resolve_input_path sys s
  = Ok (resolve_input_path (fs (Posix.plain sys)) s).
Proof.
  intros Hrel Hcwd Hfree.
  unfold Posix.resolve_input_path, resolve_input_path, Posix.Path_cwd.
  rewrite Hrel, Hcwd. cbn [negb bind].
  destruct (cwd_joinpath (fs (Posix.plain sys)) s) as [Habs Hparsed].
  apply resolve_link_free; assumption.
Qed.

(** ** A system that adds nothing *)

Lemma resolve_input_path_quiet (sys : Posix.system) (s : str) :
  Posix.quiet sys ->
  Posix.resolve_input_path sys s
  = Ok (resolve_input_path (fs (Posix.plain sys)) s).
Proof.
  intros [Hcwd [Hlinks _]].
  destruct (is_absolute (Path s)) eqn:E.
  - unfold Posix.resolve_input_path, resolve_input_path. rewrite E. reflexivity.
  - apply resolve_input_path_link_free; [exact E | exact Hcwd|].
    apply walk_link_free_none, Hlinks.
Qed.

Lemma write_json_out_quiet (sys : Posix.system) (args : Namespace)
      (exported : pyval) (trace : list event) :
  Posix.quiet sys ->
  Posix.write_json_out sys args exported trace
  = write_json_out (Posix.plain sys) args exported trace.
Proof.
  intros Hquiet. unfold Posix.write_json_out, write_json_out.
  destruct (truthy (PStr (json_out args))); [|reflexivity].
  unfold io_bind at 1, pure. rewrite (resolve_input_path_quiet _ _ Hquiet).
  reflexivity.
Qed.

Lemma try_body_quiet (sys : Posix.system) (args : Namespace)
      (img_path : PurePath) (trace : list event) :
  Posix.quiet sys ->
  Posix.try_body sys args img_path trace
  = try_body (Posix.plain sys) args img_path trace.
Proof.
  intros Hquiet. unfold Posix.try_body, try_body, io_bind.
  destruct (run_ocr (Posix.plain sys) args img_path trace) as [[exported|e] t];
    [|reflexivity].
  rewrite (write_json_out_quiet _ _ _ _ Hquiet). reflexivity.
Qed.

(** On a system that adds nothing, [main] is the [main] of the world. *)
Lemma main_quiet (sys : Posix.system) (argv : command_line) :
  Posix.quiet sys ->
  Posix.main sys argv
  = (Posix.Returns (fst (main (Posix.plain sys) argv)),
     snd (main (Posix.plain sys) argv)).
Proof.
  intros Hquiet. unfold Posix.main, main.
  rewrite (resolve_input_path_quiet _ _ Hquiet).
  unfold Posix.path_exists, Posix.is_file.
  destruct Hquiet as [Hcwd [Hlinks Hstat]]. rewrite Hstat.
  destruct (path_exists _ _); [|reflexivity]. cbn [negb].
  destruct (is_file _ _); [|reflexivity]. cbn [negb].
  rewrite (try_body_quiet _ _ _ _ (conj Hcwd (conj Hlinks Hstat))).
  destruct (try_body _ _ _ _) as [[v|e] t]; reflexivity.
Qed.

End PosixFacts.

Section PosixRunFacts.

Create HintDb posix_io.
Local Hint Resolve appends_call appends_pure appends_ret appends_run_ocr
  appends_print_text : posix_io.

Lemma appends_posix_write_json_out (sys : Posix.system) (args : Namespace)
      (exported : pyval) :
  appends (Posix.write_json_out sys args exported).
Proof.
  unfold Posix.write_json_out.
  destruct (truthy (PStr (json_out args))); [|auto with posix_io].
  repeat (apply appends_bind; [auto with posix_io | intros ?]). auto with posix_io.
Qed.

Local Hint Resolve appends_posix_write_json_out : posix_io.

(** The [try] body raises when one of its three stages does. *)
Lemma outcome_posix_try_body (sys : Posix.system) (args : Namespace)
      (img_path : PurePath) :
  outcome (Posix.try_body sys args img_path)
  = (exported <- outcome (run_ocr (Posix.plain sys) args img_path) ;;
     _ <- outcome (Posix.write_json_out sys args exported) ;;
     outcome (print_text (Posix.plain sys) args exported)).
Proof.
  unfold Posix.try_body.
  rewrite outcome_bind; [|auto with posix_io|].
  - destruct (outcome (run_ocr (Posix.plain sys) args img_path)) as [exported|e];
      [|reflexivity].
    simpl. rewrite outcome_bind; auto with posix_io.
  - intros exported. apply appends_bind; intros; auto with posix_io.
Qed.

Lemma events_posix_try_body_raised (sys : Posix.system) (args : Namespace)
      (img_path : PurePath) (e : exn) :
  outcome (run_ocr (Posix.plain sys) args img_path) = Raise e ->
  Posix.try_body sys args img_path []
  = (Raise e, events (run_ocr (Posix.plain sys) args img_path)).
Proof.
  intros Hocr. unfold Posix.try_body, io_bind.
  unfold outcome, events in *.
  destruct (run_ocr (Posix.plain sys) args img_path []) as [r trace].
  simpl in *. subst r. reflexivity.
Qed.

(** What [main] does once its checks have returned. *)
Lemma posix_main_valid (sys : Posix.system) (argv : command_line)
      (img_path : PurePath) :
  Posix.resolve_input_path sys (image_path (parse_args argv)) = Ok img_path ->
  Posix.path_exists sys img_path = Ok true ->
  Posix.is_file sys img_path = Ok true ->
  Posix.main sys argv
  = match Posix.try_body sys (parse_args argv) img_path [] with
    | (Ok _, trace) => (Posix.Returns 0, trace)
    | (Raise e, trace) =>
        (Posix.Returns 1,
         trace ++ [Stderr (lit "ERROR: OCR failed: " ++ exn_message e)])
    end.
Proof. intros Hpath Hexists Hfile. unfold Posix.main. rewrite Hpath, Hexists, Hfile. reflexivity. Qed.

(** ** Runs on systems with links and failing calls *)

Example resolve_through_link :
  Posix.resolve_input_path
    (Samples.linked (Samples.writable (Samples.stub_doctr Samples.hello_world)))
    (lit "link/x")
  = Ok (Path (lit "/home/user/out/x")).
Proof. reflexivity. Qed.

Example resolve_link_loop :
  Posix.resolve_input_path
    (Samples.looping (Samples.writable (Samples.stub_doctr Samples.hello_world)))
    (lit "loopa/x")
  = Raise (External (lit "Symlink loop from '/home/user/loopa/x'")).
Proof. reflexivity. Qed.

Example resolve_out_of_link_loop :
  Posix.resolve_input_path
    (Samples.looping (Samples.writable (Samples.stub_doctr Samples.hello_world)))
    (lit "loopa/../x")
  = Ok (Path (lit "/home/user/x")).
Proof. reflexivity. Qed.

Example main_without_cwd :
  Posix.main
    (Samples.without_cwd (Samples.writable (Samples.stub_doctr Samples.hello_world)))
    Samples.scan
  = (Posix.Escapes Samples.no_such_directory, []).
Proof. reflexivity. Qed.

Example main_on_link_loop :
  Posix.main
    (Samples.looping (Samples.writable (Samples.stub_doctr Samples.hello_world)))
    (with_json_out Samples.scan (Some (lit "loopa")))
  = (Posix.Returns 1,
     [LoadDocument (lit "/home/user/scan.png");
      BuildPredictor (lit "db_resnet50") (lit "crnn_vgg16_bn") true;
      RunModel; ExportResult;
      Stderr (lit "ERROR: OCR failed: Symlink loop from '/home/user/loopa'")]).
Proof. reflexivity. Qed.

End PosixRunFacts.

(* ===================================================================== *)
(** * Symbolic links and failing calls: claims *)
(* ===================================================================== *)

Section PosixClaims.

Variable sys : Posix.system.

(** C3, amended: for an input that denotes a relative path, in a working
    directory d that [os.getcwd()] returns, when no name met on the way
    down the path of d joined with the input is a symbolic link,
    [resolve_input_path] returns the normalization of the text of d
    joined with the input. *)
Theorem resolve_relative (user_path : str) :
  is_absolute (Path user_path) = false ->
  Posix.getcwd_error sys = None ->
  Posix.meets_no_link sys
    (joinpath (Path_cwd (fs (Posix.plain sys))) (Path user_path)) = true ->
  Posix.resolve_input_path sys user_path
  = Ok (normalize (join_text (getcwd (fs (Posix.plain sys))) user_path)).
Proof.
  intros Hrel Hcwd Hfree.
  rewrite (resolve_input_path_link_free sys _ Hrel Hcwd Hfree).
  rewrite (resolve_input_path_relative _ _ Hrel). reflexivity.
Qed.

Variable argv : command_line.

Let args : Namespace := parse_args argv.

(** C4, where the code goes another way: when [stat] fails on the
    resolved input path with an error that [exists()] does not take for
    the absence of a file, the exception leaves [main] from line 124,
    outside the [try]: nothing is printed by [main], no exit code is
    returned, and the process ends with the status 1. *)
Theorem stat_failure_leaves_main (img_path : PurePath) (e : exn) :
  Posix.resolve_input_path sys (image_path args) = Ok img_path ->
  Posix.stat_failure_at sys img_path = Some (Posix.Errno e) ->
  Posix.main sys argv = (Posix.Escapes e, [])
  /\ Posix.exit_status (fst (Posix.main sys argv)) = 1%Z.
Proof.
  intros Hpath Hstat. unfold Posix.main. fold args.
  rewrite Hpath. unfold Posix.path_exists. rewrite Hstat. split; reflexivity.
Qed.

(** C5, amended: when the checks of the input path have passed and a
    call of the OCR stage (loading the document, building the predictor,
    running it, exporting) raises, [main] returns 1 after a print on
    standard error of [ERROR: OCR failed: ] and the message of the
    exception; and [main] returns 1 exactly when [resolve_input_path]
    returned, [exists()] and [is_file()] returned true, and an exception
    is raised inside the [try]: by the OCR stage, by the writing of the
    JSON file, or by the flattening and printing of the text. *)
Theorem exit_code_1 :
  (forall img_path e,
      Posix.resolve_input_path sys (image_path args) = Ok img_path ->
      Posix.path_exists sys img_path = Ok true ->
      Posix.is_file sys img_path = Ok true ->
      outcome (run_ocr (Posix.plain sys) args img_path) = Raise e ->
      Posix.main sys argv
      = (Posix.Returns 1,
         events (run_ocr (Posix.plain sys) args img_path)
         ++ [Stderr (lit "ERROR: OCR failed: " ++ exn_message e)]))
  /\ (fst (Posix.main sys argv) = Posix.Returns 1 <->
      exists img_path,
        Posix.resolve_input_path sys (image_path args) = Ok img_path
        /\ Posix.path_exists sys img_path = Ok true
        /\ Posix.is_file sys img_path = Ok true
        /\ exists e,
            (exported <- outcome (run_ocr (Posix.plain sys) args img_path) ;;
             _ <- outcome (Posix.write_json_out sys args exported) ;;
             outcome (print_text (Posix.plain sys) args exported)) = Raise e).
Proof.
  split.
  - intros img_path e Hpath Hexists Hfile Hocr.
    rewrite (posix_main_valid sys argv img_path Hpath Hexists Hfile). fold args.
    rewrite (events_posix_try_body_raised _ _ _ _ Hocr). reflexivity.
  - split.
    + unfold Posix.main. fold args.
      destruct (Posix.resolve_input_path sys (image_path args)) as [img_path|e];
        [|discriminate].
      destruct (Posix.path_exists sys img_path) as [[|]|e] eqn:Hexists;
        try discriminate.
      destruct (Posix.is_file sys img_path) as [[|]|e] eqn:Hfile;
        try discriminate.
      intros H. exists img_path.
      split; [reflexivity|]. split; [exact Hexists|]. split; [exact Hfile|].
      rewrite <- outcome_posix_try_body. unfold outcome.
      destruct (Posix.try_body sys args img_path []) as [[v|e] trace];
        [discriminate | eexists; reflexivity].
    + intros [img_path [Hpath [Hexists [Hfile [e He]]]]].
      rewrite (posix_main_valid sys argv img_path Hpath Hexists Hfile). fold args.
      rewrite <- outcome_posix_try_body in He. unfold outcome in He.
      destruct (Posix.try_body sys args img_path []) as [[v|e'] trace];
        [discriminate | reflexivity].
Qed.

(** X18: when [resolve_input_path] returned and [exists()] returns
    false, or returns true and [is_file()] returns false, [main] returns
    2, what it did is one print on standard error that ends with the
    resolved path, and docTR was not called. *)
Theorem invalid_input_path_returns_2 (img_path : PurePath) :
  Posix.resolve_input_path sys (image_path args) = Ok img_path ->
  Posix.path_exists sys img_path = Ok false
  \/ (Posix.path_exists sys img_path = Ok true
      /\ Posix.is_file sys img_path = Ok false) ->
  exists message,
    Posix.main sys argv
    = (Posix.Returns 2, [Stderr (message ++ path_str img_path)])
    /\ existsb is_ocr_event (snd (Posix.main sys argv)) = false.
Proof.
  intros Hpath H. unfold Posix.main. fold args. rewrite Hpath.
  destruct H as [-> | [-> ->]]; eexists; split; reflexivity.
Qed.


End PosixClaims.

(** C3, as stated, fails where a name of the path is a symbolic link:
    in /home/user, where link2 points to /home/other/dir, the input
    link2/../x is resolved to /home/other/x, and the normalization of
    /home/user/link2/../x is /home/user/x. *)
Lemma relative_through_symlink :
  is_absolute (Path (lit "link2/../x")) = false
  /\ Posix.resolve_input_path
       (Samples.linked (Samples.writable (Samples.stub_doctr Samples.hello_world)))
       (lit "link2/../x")
     = Ok (Path (lit "/home/other/x"))
  /\ normalize (join_text (lit "/home/user") (lit "link2/../x"))
     = Path (lit "/home/user/x")
  /\ Posix.resolve_input_path
       (Samples.linked (Samples.writable (Samples.stub_doctr Samples.hello_world)))
       (lit "link2/../x")
     <> Ok (normalize (join_text (lit "/home/user") (lit "link2/../x"))).
Proof.
  repeat split; try reflexivity.
  vm_compute. discriminate.
Qed.

Lemma resolve_relative_witness :
  is_absolute (Path (lit "./images/../a.jpg")) = false
  /\ Posix.meets_no_link
       (Samples.linked (Samples.writable (Samples.stub_doctr Samples.hello_world)))
       (joinpath (Path_cwd Samples.home) (Path (lit "./images/../a.jpg"))) = true
  /\ Posix.resolve_input_path
       (Samples.linked (Samples.writable (Samples.stub_doctr Samples.hello_world)))
       (lit "./images/../a.jpg")
     = Ok (normalize (lit "/home/user/./images/../a.jpg"))
  /\ path_str (normalize (lit "/home/user/./images/../a.jpg"))
     = lit "/home/user/a.jpg".
Proof.
  split; [reflexivity|]. split; [reflexivity|]. split; [|reflexivity].
  exact (resolve_relative
           (Samples.linked (Samples.writable (Samples.stub_doctr Samples.hello_world)))
           (lit "./images/../a.jpg") eq_refl eq_refl eq_refl).
Defined.

Lemma stat_failure_leaves_main_witness :
  path_exists Samples.home (Path (lit "/home/user" ++ [slash] ++ Samples.long_name))
  = false
  /\ Posix.main
       (Samples.long_names (Samples.writable (Samples.stub_doctr Samples.hello_world)))
       Samples.scan_long_name
     = (Posix.Escapes
          (Samples.file_name_too_long
             (Path (lit "/home/user" ++ [slash] ++ Samples.long_name))), [])
  /\ Posix.exit_status
       (fst (Posix.main
               (Samples.long_names
                  (Samples.writable (Samples.stub_doctr Samples.hello_world)))
               Samples.scan_long_name)) = 1%Z.
Proof.
  split; [reflexivity|].
  exact (stat_failure_leaves_main
           (Samples.long_names (Samples.writable (Samples.stub_doctr Samples.hello_world)))
           Samples.scan_long_name
           (Path (lit "/home/user" ++ [slash] ++ Samples.long_name))
           (Samples.file_name_too_long
              (Path (lit "/home/user" ++ [slash] ++ Samples.long_name)))
           eq_refl eq_refl).
Defined.

(** C5, as stated, fails when the writing of the JSON file raises: docTR
    returned, and [main] returns 1 all the same. *)
Lemma exit_code_1_without_ocr_failure :
  ~ (fst (Posix.main
            (Samples.posix (Samples.read_only (Samples.stub_doctr Samples.hello_world)))
            Samples.scan_to_json) = Posix.Returns 1
     <-> exists e,
           outcome (run_ocr (Samples.read_only (Samples.stub_doctr Samples.hello_world))
                            (parse_args Samples.scan_to_json)
                            (Path (lit "/home/user/scan.png")))
           = Raise e).
Proof.
  intros [H _]. destruct (H eq_refl) as [e He].
  vm_compute in He. discriminate.
Qed.

Lemma exit_code_1_witness :
  Posix.main (Samples.posix (Samples.writable Samples.unknown_arch_doctr)) Samples.scan
  = (Posix.Returns 1,
     [LoadDocument (lit "/home/user/scan.png");
      BuildPredictor (lit "db_resnet50") (lit "crnn_vgg16_bn") true;
      Stderr (lit "ERROR: OCR failed: unknown architecture")]).
Proof.
  exact (proj1 (exit_code_1 (Samples.posix (Samples.writable Samples.unknown_arch_doctr))
                  Samples.scan)
           (Path (lit "/home/user/scan.png"))
           (External (lit "unknown architecture")) eq_refl eq_refl eq_refl eq_refl).
Defined.

Lemma invalid_input_path_returns_2_witness :
  Posix.path_exists
    (Samples.linked (Samples.writable (Samples.stub_doctr Samples.hello_world)))
    (Path (lit "/home/user/missing.png")) = Ok false
  /\ exists message,
       Posix.main
         (Samples.linked (Samples.writable (Samples.stub_doctr Samples.hello_world)))
         Samples.missing
       = (Posix.Returns 2, [Stderr (message ++ lit "/home/user/missing.png")])
       /\ existsb is_ocr_event
            (snd (Posix.main
                    (Samples.linked
                       (Samples.writable (Samples.stub_doctr Samples.hello_world)))
                    Samples.missing)) = false.
Proof.
  split; [reflexivity|].
  exact (invalid_input_path_returns_2
           (Samples.linked (Samples.writable (Samples.stub_doctr Samples.hello_world)))
           Samples.missing (Path (lit "/home/user/missing.png"))
           eq_refl (or_introl eq_refl)).
Defined.

(* ===================================================================== *)
(** * The export flattener: further properties *)
(* ===================================================================== *)

Section FlattenerProperties.

Import Shape Reference.

Lemma stripped_strip (s : str) : stripped s = true -> strip s = s.
Proof.
  unfold stripped, strip, rstrip. intros H.
  apply andb_true_iff in H as [Hhead Hlast].
  apply negb_true_iff in Hhead, Hlast.
  assert (Hl : forall t, starts_with_space t = false -> lstrip t = t).
  { intros [|c t] Ht; [reflexivity|]. simpl in *. rewrite Ht. reflexivity. }
  rewrite (Hl s Hhead), (Hl (rev s) Hlast). apply rev_involutive.
Qed.

(** X1: whatever the export, a text the flattener returns neither starts
    nor ends with a whitespace character, and stripping it again changes
    nothing. *)
Theorem extract_text_stripped (exported : pyval) (text : str) :
  extract_text_from_doctr_export exported = Ok text ->
  stripped text = true /\ strip text = text.
Proof.
  unfold extract_text_from_doctr_export.
  destruct (collect_output_lines exported) as [lines|e]; simpl; [|discriminate].
  intros H. injection H as <-.
  pose proof (strip_stripped (join newline lines)) as Hs.
  split; [exact Hs | apply stripped_strip, Hs].
Qed.

Lemma extract_text_stripped_witness :
  extract_text_from_doctr_export Samples.padded = Ok (lit "x y")
  /\ stripped (lit "x y") = true /\ strip (lit "x y") = lit "x y".
Proof.
  split; [reflexivity|].
  exact (extract_text_stripped Samples.padded (lit "x y") eq_refl).
Defined.

(** X2: among the values made of [None], booleans, integers, floats,
    strings, lists, tuples and dicts with string keys (the values of
    [pyval]), the flattener returns a text exactly on those of this
    shape: the export, each page, each block, each line and each word is
    a dict; [pages], [blocks], [lines] and [words], where present, hold
    a list or a tuple (or an empty string or dict); and [value], where
    present, tests false or is a string. On every other value of
    [pyval] it raises. *)
Theorem extract_text_returns_iff (exported : pyval) :
  (export_accepted exported = true
   <-> exists text, extract_text_from_doctr_export exported = Ok text)
  /\ (export_accepted exported = false
      <-> exists e, extract_text_from_doctr_export exported = Raise e).
Proof.
  pose proof (collect_output_lines_settles exported) as H.
  unfold extract_text_from_doctr_export.
  destruct (export_accepted exported); destruct H as [r ->]; simpl;
    split; split; intros H; try discriminate H; eauto;
    destruct H as [x H]; discriminate H.
Qed.

(** X3: the flattener reads the keys [pages], [blocks], [lines], [words]
    and [value] and nothing else: on any value it returns, or raises, what
    it does on the value reduced to these keys. *)
Theorem extract_text_reads_its_keys (exported : pyval) :
  extract_text_from_doctr_export (export_only exported)
  = extract_text_from_doctr_export exported.
Proof.
  unfold extract_text_from_doctr_export.
  rewrite collect_output_lines_only. reflexivity.
Qed.

(** X4: on an OCR export the entries the page loop collects, once the
    empty ones are dropped, are the text lines of the pages in reading
    order: pages, then blocks, then lines. *)
Theorem text_lines_in_order (exported : pyval) :
  is_export exported = true ->
  exists output_lines,
    collect_output_lines exported = Ok output_lines
    /\ filter nonempty output_lines
       = flat_map page_entries (children (lit "pages") exported).
Proof.
  intros Hwf. exists (output_entries exported). split.
  - apply collect_output_lines_wf, Hwf.
  - apply text_entries.
Qed.

Lemma text_lines_in_order_witness :
  is_export Samples.sparse = true
  /\ exists output_lines,
       collect_output_lines Samples.sparse = Ok output_lines
       /\ filter nonempty output_lines = [lit "x"; lit "y"].
Proof.
  split; [reflexivity|].
  exact (text_lines_in_order Samples.sparse eq_refl).
Defined.

(** X5: an OCR export in which no line has a word with a non-empty value
    flattens to the empty string, however many pages it has. *)
Theorem extract_text_blank (exported : pyval) :
  is_export exported = true ->
  flat_map page_entries (children (lit "pages") exported) = [] ->
  extract_text_from_doctr_export exported = Ok [].
Proof.
  intros Hwf Hblank. rewrite (extract_text_wf _ Hwf). f_equal.
  unfold flatten. apply strip_spaces, join_empty_entries, filter_nonempty_none.
  unfold output_entries, enumerate. rewrite text_entries. exact Hblank.
Qed.

Lemma extract_text_blank_witness :
  is_export Samples.blank = true
  /\ collect_output_lines Samples.blank = Ok [[]; []]
  /\ extract_text_from_doctr_export Samples.blank = Ok [].
Proof.
  split; [reflexivity|]. split; [reflexivity|].
  exact (extract_text_blank Samples.blank eq_refl eq_refl).
Defined.

(** X6: on an OCR export of at most one page no separator is added: the
    text is the text lines joined with newlines, stripped. *)
Theorem extract_text_single_page (exported : pyval) :
  is_export exported = true ->
  List.length (children (lit "pages") exported) <= 1 ->
  extract_text_from_doctr_export exported = Ok (flatten_lines_only exported).
Proof.
  intros Hwf Hlen. rewrite (extract_text_wf _ Hwf). f_equal.
  unfold flatten, flatten_lines_only, output_entries, enumerate.
  destruct (children (lit "pages") exported) as [|page [|page' pages]];
    simpl in *; [reflexivity | | lia].
  rewrite !app_nil_r. reflexivity.
Qed.

Lemma extract_text_single_page_witness :
  is_export Samples.hello_world = true
  /\ extract_text_from_doctr_export Samples.hello_world
     = Ok (flatten_lines_only Samples.hello_world).
Proof.
  split; [reflexivity|].
  apply (extract_text_single_page Samples.hello_world eq_refl).
  simpl. lia.
Defined.

End FlattenerProperties.

(* ===================================================================== *)
(** * The path resolver: further properties *)
(* ===================================================================== *)

Section PathProperties.

Import Shape.

Variable fs : filesystem.

(** X7: whatever the input, [resolve_input_path] returns an absolute
    path. *)
Theorem resolved_path_absolute (user_path : str) :
  is_absolute (resolve_input_path fs user_path) = true.
Proof. apply resolve_input_path_is_absolute. Qed.

(** X8: the text of a resolved path, which is what [main] prints and hands
    to docTR, denotes that path: parsing it gives the path back. The same
    holds of any path the parser made. *)
Theorem resolved_path_text (user_path : str) :
  Path (path_str (resolve_input_path fs user_path))
  = resolve_input_path fs user_path
  /\ Path (path_str (Path user_path)) = Path user_path.
Proof.
  split; apply Path_path_str.
  - apply resolve_input_path_parsed.
  - apply Path_parsed.
Qed.

(** X9: resolving is idempotent: resolving the text of a resolved path
    gives that path. *)
Theorem resolve_input_path_idempotent (user_path : str) :
  resolve_input_path fs (path_str (resolve_input_path fs user_path))
  = resolve_input_path fs user_path.
Proof.
  pose proof (Path_path_str _ (resolve_input_path_parsed fs user_path)) as Htext.
  pose proof (resolve_input_path_is_absolute fs user_path) as Habs.
  unfold resolve_input_path at 1. rewrite Htext, Habs. reflexivity.
Qed.


(** X11: for an absolute input that has no [..] segment and does not start
    with exactly two separators, the result is the normalization of the
    input. *)
Theorem resolve_absolute_normal (user_path : str) :
  is_absolute (Path user_path) = true ->
  root (Path user_path) = [slash] ->
  forallb (fun x => negb (str_eqb x (lit ".."))) (parts (Path user_path)) = true ->
  resolve_input_path fs user_path = normalize user_path.
Proof.
  intros Habs Hroot Hparts.
  rewrite (resolve_input_path_absolute fs _ Habs), <- (resolve_Path fs _ Habs).
  unfold resolve. rewrite Habs.
  assert (Hproper : forallb proper_name (parts (Path user_path)) = true).
  { apply forallb_forall. intros x Hx.
    rewrite forallb_forall in Hparts. unfold proper_name.
    rewrite (Hparts x Hx), andb_true_r.
    rewrite parts_Path in Hx. apply filter_In in Hx. tauto. }
  rewrite (realpath_walk_proper_names _ _ Hproper).
  destruct (Path user_path) as [r ps]. simpl in *. subst r. reflexivity.
Qed.

End PathProperties.


Lemma resolve_absolute_normal_witness :
  resolve_input_path Samples.home (lit "/srv//scans/./a.png")
  = normalize (lit "/srv//scans/./a.png").
Proof.
  exact (resolve_absolute_normal Samples.home (lit "/srv//scans/./a.png")
           eq_refl eq_refl eq_refl).
Defined.
